(** * sockit: raw-socket TCP flows, their registry, packet filters and
      the embedded TCP engine.

    A shallow embedding of the Go sources:
    - [internal/bpf/bpf.go]            (module [Bpf])
    - [conn] package, [ListenLocal]    (module [PortGuard])
    - [conn/tcp/eth_linux.go]          (module [EthRegistry])
    - [conn/tcp/tcp_linux.go]          (module [TcpRegistry])
    - [ConnEth.init] / [Conn.init]     (module [Flow])
    - [stack/stack.go]                 (module [Stack])
    - the header stamping engine       (module [IPStack])
    - [conn] package, [Options]        (module [ConnConfig])
    - [conn] package, [SetTSO]         (module [TSO])
    - the receive loop of [Read]       (module [FlowRead])
    - [ListenEth] and [Listen]         (module [Setup])
*)

From Stdlib Require Import ZArith Lia List Bool.
From Stdlib Require Strings.Byte.
From Stdlib Require Import Init.Byte.
From stdpp Require Import base gmap list strings.
Import ListNotations.

Local Open Scope Z_scope.

(** ** Bytes and big-endian loads *)

Definition byteZ (b : byte) : Z := Z.of_N (Byte.to_N b).

Definition Zbyte (z : Z) : byte :=
  match Byte.of_N (Z.to_N (z mod 256)) with
  | Some b => b
  | None => Byte.x00
  end.

(** ** Go values shared by the packages *)

(** [error]: the error values the sources build or test for.  [Errno] is a
    raw system error number, [OpError] the [&net.OpError{Op, Err}] wrapper
    (also standing for [os.SyscallError]), which
    [errors.Is] looks through, like [errors.WithStack]. *)
Inductive error :=
| Errno (n : Z)
| OpError (op : string) (err : error)
| WithStack (err : error)
| ErrorsNew (msg : string)
| ErrNotUsedPort (port : Z)
| ErrInvalidPacket (n : Z)
| ErrClosed
| EOF.

Definition EADDRINUSE : error := Errno 98.

Fixpoint error_eqb (a b : error) : bool :=
  match a, b with
  | Errno n, Errno m => n =? m
  | OpError o e, OpError o' e' => String.eqb o o' && error_eqb e e'
  | WithStack e, WithStack e' => error_eqb e e'
  | ErrorsNew s, ErrorsNew s' => String.eqb s s'
  | ErrNotUsedPort p, ErrNotUsedPort q => p =? q
  | ErrInvalidPacket n, ErrInvalidPacket m => n =? m
  | ErrClosed, ErrClosed => true
  | EOF, EOF => true
  | _, _ => false
  end.

(** [errors.Is]: equality with the target somewhere along the chain of
    wrapped errors. *)
Fixpoint errors_Is (err target : error) : bool :=
  error_eqb err target ||
  match err with
  | OpError _ inner => errors_Is inner target
  | WithStack inner => errors_Is inner target
  | _ => false
  end.

(** [netip.Addr]: the zero value, an IPv4 or an IPv6 address. *)
Inductive Addr :=
| AddrZero
| Addr4 (a : Z)
| Addr6 (a : Z).

Definition Is4 (a : Addr) : bool :=
  match a with Addr4 _ => true | _ => false end.

Definition IsValid (a : Addr) : bool :=
  match a with AddrZero => false | _ => true end.

(** [netip.AddrPort] *)
Record AddrPort := AddrPortFrom { AddrOf : Addr; Port : Z }.

Definition AddrPortZero : AddrPort := AddrPortFrom AddrZero 0.

#[global] Instance Addr_eq_dec : EqDecision Addr.
Proof. solve_decision. Defined.

#[global] Instance Addr_countable : Countable Addr.
Proof.
  refine (inj_countable'
    (fun a => match a with
              | AddrZero => inl ()
              | Addr4 z => inr (inl z)
              | Addr6 z => inr (inr z)
              end)
    (fun s => match s with
              | inl _ => AddrZero
              | inr (inl z) => Addr4 z
              | inr (inr z) => Addr6 z
              end) _).
  intros []; reflexivity.
Defined.

#[global] Instance AddrPort_eq_dec : EqDecision AddrPort.
Proof. solve_decision. Defined.

#[global] Instance AddrPort_countable : Countable AddrPort.
Proof.
  refine (inj_countable' (fun p => (AddrOf p, Port p))
                         (fun q => AddrPortFrom (fst q) (snd q)) _).
  intros []; reflexivity.
Defined.

(** What a call may do besides returning: panic (a run-time error that
    unwinds the caller) or never return. *)
Inductive outcome (A : Type) :=
| Returns (a : A)
| Panics
| Blocks.
Arguments Returns {A} a.
Arguments Panics {A}.
Arguments Blocks {A}.

(** ** internal/bpf/bpf.go *)

Module Bpf.

(** gVisor's header constants used by the filters. *)
Definition TCPDstPortOffset : Z := 2.
Definition TCPFlagsOffset : Z := 13.
Definition TCPFlagFin : Z := 1.
Definition TCPFlagSyn : Z := 2.
Definition TCPFlagRst : Z := 4.
Definition TCPFlagPsh : Z := 8.
Definition TCPFlagAck : Z := 16.

Inductive Register := RegA | RegX.
Inductive ALUOp := ALUOpAnd | ALUOpShiftRight.
Inductive JumpTest := JumpEqual | JumpNotEqual.

(** The instructions of golang.org/x/net/bpf that the filters use. *)
Inductive Instruction :=
| LoadAbsolute (Off : Z) (Size : nat)
| LoadIndirect (Off : Z) (Size : nat)
| LoadMemShift (Off : Z)
| LoadConstant (Dst : Register) (Val : Z)
| ALUOpConstant (Op : ALUOp) (Val : Z)
| JumpIf (Cond : JumpTest) (Val : Z) (SkipTrue SkipFalse : nat)
| RetConstant (Val : Z).

Definition wrap32 (z : Z) : Z := z mod 2 ^ 32.

(** Big-endian value of [n] bytes. *)
Fixpoint be (bs : list byte) (acc : Z) : Z :=
  match bs with
  | [] => acc
  | b :: bs' => be bs' (acc * 256 + byteZ b)
  end.

(** A load of [size] bytes at [off]; [None] when it leaves the packet. *)
Definition load (pkt : list byte) (off : Z) (size : nat) : option Z :=
  if (0 <=? off) && (off + Z.of_nat size <=? Z.of_nat (length pkt))
  then Some (be (take size (drop (Z.to_nat off) pkt)) 0)
  else None.

Definition alu (op : ALUOp) (a v : Z) : Z :=
  match op with
  | ALUOpAnd => Z.land a v
  | ALUOpShiftRight => Z.shiftr a v
  end.

Definition test (c : JumpTest) (a v : Z) : bool :=
  match c with
  | JumpEqual => a =? v
  | JumpNotEqual => negb (a =? v)
  end.

(** The virtual machine: registers A and X, a program counter that only
    moves forward; a load outside the packet ends the run with 0, as does
    falling off the program. *)
Fixpoint exec (fuel : nat) (prog : list Instruction) (pkt : list byte)
         (pc : nat) (A X : Z) : Z :=
  match fuel with
  | O => 0
  | S fuel' =>
    match prog !! pc with
    | None => 0
    | Some ins =>
      match ins with
      | LoadAbsolute off size =>
        match load pkt off size with
        | Some v => exec fuel' prog pkt (S pc) v X
        | None => 0
        end
      | LoadIndirect off size =>
        match load pkt (X + off) size with
        | Some v => exec fuel' prog pkt (S pc) v X
        | None => 0
        end
      | LoadMemShift off =>
        match load pkt off 1 with
        | Some v => exec fuel' prog pkt (S pc) A (4 * Z.land v 15)
        | None => 0
        end
      | LoadConstant RegA v => exec fuel' prog pkt (S pc) (wrap32 v) X
      | LoadConstant RegX v => exec fuel' prog pkt (S pc) A (wrap32 v)
      | ALUOpConstant op v => exec fuel' prog pkt (S pc) (wrap32 (alu op A v)) X
      | JumpIf c v st sf =>
        exec fuel' prog pkt (S pc + (if test c A v then st else sf))%nat A X
      | RetConstant v => v
      end
    end
  end.

Definition run (prog : list Instruction) (pkt : list byte) : Z :=
  exec (length prog) prog pkt 0 0 0.

(** ipHeaderLen store ip header length to reg X *)
Definition ipHeaderLen : list Instruction :=
  [ LoadAbsolute 0 1;
    ALUOpConstant ALUOpShiftRight 4;
    JumpIf JumpNotEqual 4 1 0;
    LoadMemShift 0;
    JumpIf JumpNotEqual 6 1 0;
    LoadConstant RegX 40 ].

Definition FilterDstPortAndSynFlag (port : Z) : list Instruction :=
  let syn := TCPFlagSyn in
  ipHeaderLen ++
  [ LoadIndirect TCPDstPortOffset 2;
    JumpIf JumpEqual port 1 0;
    RetConstant 0;
    LoadIndirect TCPFlagsOffset 1;
    ALUOpConstant ALUOpAnd syn;
    JumpIf JumpEqual syn 1 0;
    RetConstant 0;
    RetConstant 65535 ].

Definition FilterSrcPortAndDstPort (srcPort dstPort : Z) : list Instruction :=
  ipHeaderLen ++
  [ LoadIndirect 0 2;
    JumpIf JumpEqual srcPort 1 0;
    RetConstant 0;
    LoadIndirect 2 2;
    JumpIf JumpEqual dstPort 1 0;
    RetConstant 0;
    RetConstant 65535 ].

(** What the packet itself says about its network header: the version
    nibble, and the offset of the transport header for IPv4 (IHL words)
    and IPv6 (fixed 40 bytes). *)
Definition ipVersion (pkt : list byte) : option Z :=
  match pkt with
  | [] => None
  | b :: _ => Some (Z.shiftr (byteZ b) 4)
  end.

Definition transportOffset (pkt : list byte) : option Z :=
  match pkt with
  | [] => None
  | b :: _ =>
    if Z.shiftr (byteZ b) 4 =? 4 then Some (4 * Z.land (byteZ b) 15)
    else if Z.shiftr (byteZ b) 4 =? 6 then Some 40
    else None
  end.

Definition dstPort (pkt : list byte) : option Z :=
  off ← transportOffset pkt; load pkt (off + TCPDstPortOffset) 2.

Definition tcpFlags (pkt : list byte) : option Z :=
  off ← transportOffset pkt; load pkt (off + TCPFlagsOffset) 1.

Definition srcPort (pkt : list byte) : option Z :=
  off ← transportOffset pkt; load pkt off 2.

(** A captured IPv4 packet (IHL 5) from 10.0.0.2:443 to 10.0.0.1:8080 whose
    TCP flags byte is SYN|ACK. *)
Definition synack_packet : list byte :=
  map Zbyte
    [ 69; 0; 0; 40; 0; 1; 0; 0; 64; 6; 0; 0; 10; 0; 0; 2; 10; 0; 0; 1;
      1; 187; 31; 144; 0; 0; 0; 7; 0; 0; 0; 9; 80; 18; 255; 255; 0; 0; 0; 0 ].

End Bpf.

(** ** gVisor's header package, as far as Accept uses it *)

Module Header.

(** A Go slice of bytes: the bytes from its start to its capacity, and
    its length.  Slicing past the length (from below) or past the capacity
    (from above) panics, as does indexing past the length: [None]. *)
Record slice := { cells : list byte; len : nat }.

Definition slice_from (s : slice) (i : nat) : option slice :=
  if (i <=? len s)%nat
  then Some {| cells := drop i (cells s); len := len s - i |}
  else None.

Definition slice_to (s : slice) (j : nat) : option slice :=
  if (j <=? length (cells s))%nat
  then Some {| cells := cells s; len := j |}
  else None.

(** [s[lo:hi]] *)
Definition slice_range (s : slice) (lo hi : nat) : option slice :=
  if (lo <=? hi)%nat && (hi <=? length (cells s))%nat
  then Some {| cells := drop lo (cells s); len := hi - lo |}
  else None.

Definition index (s : slice) (i : nat) : option Z :=
  if (i <? len s)%nat then byteZ <$> cells s !! i else None.

(** [binary.BigEndian.Uint16(s)] and [Uint32(s)] *)
Definition Uint16 (s : slice) : option Z :=
  b0 ← index s 0; b1 ← index s 1; Some (b0 * 256 + b1).

Definition Uint32 (s : slice) : option Z :=
  b0 ← index s 0; b1 ← index s 1; b2 ← index s 2; b3 ← index s 3;
  Some (((b0 * 256 + b1) * 256 + b2) * 256 + b3).

Definition IPv4MinimumSize : nat := 20.
Definition IPv6MinimumSize : nat := 40.
Definition TCPMinimumSize : nat := 20.

(** [header.IPVersion] *)
Definition IPVersion (b : slice) : Z :=
  match index b 0 with
  | Some v => Z.shiftr v 4
  | None => -1
  end.

(** [header.IPv4]: header length (a uint8), total length, payload length
    (a uint16 difference), payload, source address. *)
Definition HeaderLength (b : slice) : option Z :=
  v ← index b 0; Some ((Z.land v 15 * 4) mod 256).

Definition TotalLength (b : slice) : option Z :=
  s ← slice_from b 2; Uint16 s.

Definition PayloadLength (b : slice) : option Z :=
  hl ← HeaderLength b; tl ← TotalLength b; Some ((tl - hl) mod 65536).

Definition Payload (b : slice) : option slice :=
  hl ← HeaderLength b;
  pl ← PayloadLength b;
  s ← slice_from b (Z.to_nat hl);
  slice_to s (Z.to_nat pl).

Definition SourceAddress (b : slice) : option Z :=
  s ← slice_range b 12 16; Uint32 s.

(** [header.TCP] *)
Definition SourcePort (b : slice) : option Z :=
  s ← slice_from b 0; Uint16 s.

Definition SequenceNumber (b : slice) : option Z :=
  s ← slice_from b 4; Uint32 s.

(** The bytes of [z] in [k] big-endian bytes. *)
Fixpoint be_bytes (k : nat) (z : Z) : list byte :=
  match k with
  | O => []
  | S k' => be_bytes k' (z / 256) ++ [Zbyte z]
  end.

(** A minimal IPv4 SYN as captured: 20 bytes of IP header (IHL 5, total
    length 40, protocol 6) from [src] to [dst], then 20 bytes of TCP header
    with the SYN flag, the ports and the sequence number given. *)
Definition syn_packet (src dst sport dport seq : Z) : list byte :=
  map Zbyte [69; 0; 0; 40; 0; 0; 64; 0; 64; 6; 0; 0] ++
  be_bytes 4 src ++ be_bytes 4 dst ++
  be_bytes 2 sport ++ be_bytes 2 dport ++ be_bytes 4 seq ++ be_bytes 4 0 ++
  map Zbyte [80; 2; 255; 255; 0; 0; 0; 0].

(** Sizes for SYN packets: at least the bare IP and TCP headers, at most
    both with all their options. *)
Definition syn_sizes (is4 : bool) : nat * nat :=
  if is4 then (40, 120)%nat else (60, 100)%nat.

End Header.

(** ** conn: ListenLocal (the local port guard) *)

Module PortGuard.

(** A bound [*net.TCPListener]: its descriptor and the port the kernel
    gave it. *)
Record TCPListener := { fd : Z; boundPort : Z }.

(** What the operating system answers to the calls [ListenLocal] makes. *)
Record OS := {
  ListenTCP : AddrPort -> error + TCPListener;
  SyscallConn : TCPListener -> option error;
  (** [raw.Control] itself failing (the callback is then not run) *)
  Control : TCPListener -> option error;
  (** [bpf.Assemble] of the one-instruction reject program *)
  Assemble : option error;
  (** [unix.SetsockoptSockFprog(fd, SOL_SOCKET, SO_ATTACH_FILTER, prog)] *)
  SetsockoptSockFprog : TCPListener -> option error
}.

Inductive effect :=
| Close (l : TCPListener)
| AttachFilter (l : TCPListener) (prog : list Bpf.Instruction).

Record result := {
  listener : option TCPListener;
  address : AddrPort;
  err : option error;
  effects : list effect
}.

(** ListenLocal occupy local port and avoid system stack reply RST *)
Definition ListenLocal (os : OS) (laddr : AddrPort) (usedPort : bool) : result :=
  match ListenTCP os laddr with
  | inl e =>
    if usedPort && errors_Is e EADDRINUSE
    then {| listener := None; address := laddr; err := None; effects := [] |}
    else {| listener := None; address := AddrPortZero; err := Some e; effects := [] |}
  | inr l =>
    if usedPort
    then {| listener := None; address := AddrPortZero;
            err := Some (WithStack (ErrNotUsedPort (Port laddr))); effects := [] |}
    else
      match SyscallConn os l with
      | Some e =>
        {| listener := None; address := AddrPortZero; err := Some e;
           effects := [Close l] |}
      | None =>
        let prog := [Bpf.RetConstant 0] in
        match Control os l with
        | Some e =>
          {| listener := None; address := AddrPortZero; err := Some e;
             effects := [Close l] |}
        | None =>
          match Assemble os with
          | Some e1 =>
            {| listener := None; address := AddrPortZero; err := Some e1;
               effects := [Close l] |}
          | None =>
            match SetsockoptSockFprog os l with
            | Some e =>
              {| listener := None; address := AddrPortZero; err := Some e;
                 effects := [Close l] |}
            | None =>
              {| listener := Some l;
                 address := AddrPortFrom (AddrOf laddr) (boundPort l);
                 err := None;
                 effects := [AttachFilter l prog] |}
            end
          end
        end
      end
  end.

(** An operating system on which port 8080 is taken and any other port
    binds, with every later call succeeding. *)
Definition os_8080_taken : OS :=
  {| ListenTCP := fun a =>
       if Port a =? 8080
       then inl (OpError "listen" (OpError "bind" EADDRINUSE))
       else inr {| fd := 3; boundPort := Port a |};
     SyscallConn := fun _ => None;
     Control := fun _ => None;
     Assemble := None;
     SetsockoptSockFprog := fun _ => None |}.

End PortGuard.

(** ** stack/stack.go: the embedded TCP engine *)

Module Stack.

(** gVisor's [tcpip.Error] values the engine tells apart, and the rest. *)
Inductive tcpip_Error :=
| ErrWouldBlock
| ErrClosedForReceive
| ErrConnectStarted
| ErrTcpip (text : string).

(** [e.String()] *)
Definition String_of (e : tcpip_Error) : string :=
  match e with
  | ErrWouldBlock => "operation would block"
  | ErrClosedForReceive => "endpoint is closed for receive"
  | ErrConnectStarted => "connection attempt started"
  | ErrTcpip text => text
  end.

Definition isWouldBlock (e : option tcpip_Error) : bool :=
  match e with Some ErrWouldBlock => true | _ => false end.

(** What the hosted gVisor endpoint answers.  [Read] results come in the
    order the successive calls get them: a count with no error, or an
    error. *)
Record Hosted := {
  NewEndpoint : option tcpip_Error;
  Bind : option tcpip_Error;
  Listen : option tcpip_Error;
  Connect : option tcpip_Error;
  LastError : option tcpip_Error;
  Write : list byte -> Z * option tcpip_Error
}.

Definition ReadResult : Type := Z * option tcpip_Error.

Record TCPStackGvisor := {
  (** [s.tcp.ep] is set: [tcpProtocolWrap.NewEndpoint] (whose source is not
      part of the repository files) keeps the endpoint it creates there,
      which is where every later call finds it. *)
  ep : bool;
  epClosed : bool;
  inited : bool;
  initErr : option error;
  lport : Z;
  rport : Z
}.

Definition NewTCPStackGvisor (lport rport : Z) : TCPStackGvisor :=
  {| ep := false; epClosed := false; inited := false; initErr := None;
     lport := lport; rport := rport |}.

Definition set_ep (s : TCPStackGvisor) : TCPStackGvisor :=
  {| ep := true; epClosed := epClosed s; inited := inited s;
     initErr := initErr s; lport := lport s; rport := rport s |}.

Definition set_epClosed (s : TCPStackGvisor) : TCPStackGvisor :=
  {| ep := ep s; epClosed := true; inited := inited s;
     initErr := initErr s; lport := lport s; rport := rport s |}.

Definition set_inited (s : TCPStackGvisor) : TCPStackGvisor :=
  {| ep := ep s; epClosed := epClosed s; inited := true;
     initErr := initErr s; lport := lport s; rport := rport s |}.

Definition set_initErr (e : option error) (s : TCPStackGvisor) : TCPStackGvisor :=
  {| ep := ep s; epClosed := epClosed s; inited := inited s;
     initErr := e; lport := lport s; rport := rport s |}.

(** The gate at the head of [SendSeg] and [RecvSeg]:
    [if !s.inited.Load() { s.mu.Lock(); s.initTrigger.Wait(); s.mu.Unlock() }].
    A caller that finds [inited] false parks on the condition variable and
    goes on only when a [Broadcast] comes ([woken]). *)
Definition passes_gate (s : TCPStackGvisor) (woken : bool) : bool :=
  inited s || woken.

Definition SendSeg (h : Hosted) (s : TCPStackGvisor) (woken : bool)
           (seg : list byte) : outcome (Z * option error) :=
  if negb (passes_gate s woken) then Blocks
  else if negb (ep s) then Panics
  else
    match Write h seg with
    | (_, Some e) => Returns (0, Some (ErrorsNew (String_of e)))
    | (n64, None) => Returns (n64, None)
    end.

(** The retry loop of [RecvSeg]: read again after each readable event
    until the result is not [ErrWouldBlock]; with no further result the
    caller stays on [<-notifyCh]. *)
Fixpoint read_until_ready (reads : list ReadResult) : option ReadResult :=
  match reads with
  | [] => None
  | r :: rest => if isWouldBlock (snd r) then read_until_ready rest else Some r
  end.

Definition RecvSeg (s : TCPStackGvisor) (woken : bool)
           (reads : list ReadResult) : outcome (Z * option error) :=
  if negb (passes_gate s woken) then Blocks
  else if negb (ep s) then Panics
  else
    match reads with
    | [] => Blocks
    | r :: rest =>
      let final := if isWouldBlock (snd r) then read_until_ready rest else Some r in
      match final with
      | None => Blocks
      | Some (_, Some ErrClosedForReceive) => Returns (0, Some EOF)
      | Some (_, Some e) => Returns (0, Some (ErrorsNew (String_of e)))
      | Some (count, None) => Returns (count, None)
      end
    end.

Definition initBase (h : Hosted) (s : TCPStackGvisor) : TCPStackGvisor * option error :=
  match NewEndpoint h with
  | Some e => (s, Some (OpError "new endpoint" (ErrorsNew (String_of e))))
  | None =>
    let s := set_ep s in
    match Bind h with
    | Some e => (s, Some (OpError "bind" (ErrorsNew (String_of e))))
    | None => (s, None)
    end
  end.

(** The two handshake drivers run on a goroutine of their own; a run gives
    the new state and whether it ended in [s.initTrigger.Broadcast()]. *)
Definition initAccept (h : Hosted) (s : TCPStackGvisor) : TCPStackGvisor * bool :=
  match Listen h with
  | Some e =>
    (set_initErr (Some (OpError "listen" (ErrorsNew (String_of e)))) s, false)
  | None =>
    (* the result of Accept is printed and dropped *)
    (s, true)
  end.

(** [e := ep.Connect(...)], and after [ErrConnectStarted] and the writable
    event [e = ep.LastError()]. *)
Definition connectError (h : Hosted) : option tcpip_Error :=
  match Connect h with
  | Some ErrConnectStarted => LastError h
  | e => e
  end.

Definition initConnect (h : Hosted) (s : TCPStackGvisor) : TCPStackGvisor * bool :=
  match connectError h with
  | Some e =>
    (set_initErr (Some (OpError "connect" (ErrorsNew (String_of e))))
                 (set_epClosed s), false)
  | None => (s, true)
  end.

Inductive driver := DriveConnect | DriveAccept.

Definition run_driver (d : driver) (h : Hosted) (s : TCPStackGvisor)
  : TCPStackGvisor * bool :=
  match d with
  | DriveConnect => initConnect h s
  | DriveAccept => initAccept h s
  end.

(** The role-committing head shared by [RecvRaw] and [SendRaw]:
    [if s.inited.CompareAndSwap(false, true) { ... }].  It gives the new
    state, the error to return at once if any, and the driver started. *)
Definition commit (d : driver) (h : Hosted) (s : TCPStackGvisor)
  : TCPStackGvisor * option error * option driver :=
  if inited s then (s, None, None)
  else
    let s := set_inited s in
    let '(s, e) := initBase h s in
    let s := set_initErr e s in
    match e with
    | Some _ => (s, e, None)
    | None => (s, None, Some d)
    end.

(** [RecvRaw]: the next segment of the hosted stack's outbound queue
    [rawCh], or waiting for one. *)
Definition RecvRaw (h : Hosted) (s : TCPStackGvisor) (rawCh : list (list byte))
  : TCPStackGvisor * outcome (option (list byte) * option error) * option driver :=
  let '(s, e, d) := commit DriveConnect h s in
  match e with
  | Some _ => (s, Returns (None, e), d)
  | None =>
    match rawCh with
    | [] => (s, Blocks, d)
    | b :: _ => (s, Returns (Some b, None), d)
    end
  end.

(** [SendRaw]: queues the segment into the hosted stack and reports its
    length. *)
Definition SendRaw (h : Hosted) (s : TCPStackGvisor) (hdr : list byte)
  : TCPStackGvisor * outcome (Z * option error) * option driver :=
  let '(s, e, d) := commit DriveAccept h s in
  match e with
  | Some _ => (s, Returns (0, e), d)
  | None => (s, Returns (Z.of_nat (length hdr), None), d)
  end.

(** A hosted endpoint whose bind fails, and one whose connect fails. *)
Definition bind_fails : Hosted :=
  {| NewEndpoint := None; Bind := Some (ErrTcpip "port is in use");
     Listen := None; Connect := None; LastError := None;
     Write := fun _ => (0, Some (ErrTcpip "endpoint is in invalid state")) |}.

Definition connect_fails : Hosted :=
  {| NewEndpoint := None; Bind := None; Listen := None;
     Connect := Some ErrConnectStarted;
     LastError := Some (ErrTcpip "connection was refused");
     Write := fun _ => (0, Some (ErrTcpip "endpoint is closed for send")) |}.

End Stack.

(** ** Flow setup: ConnEth.init (eth_linux.go) and Conn.init (tcp_linux.go) *)

Module Flow.

Record RouteEntry := { Next : Addr; Interface : Z; EntryAddr : Addr }.

(** The kernel filter a flow asks for: [bpf.FilterEndpoint(proto, remote, local)]. *)
Record EndpointFilter := { proto : Z; remote : AddrPort; local : AddrPort }.

Definition TCPProtocolNumber : Z := 6.
Definition Second : Z := 1000000000.

(** What the system and the repository's helper packages answer during
    setup.  Interfaces, ARP clients, link-layer handles and hardware
    addresses are numbers.  [RawInterface] is the [Interface] method of [eth.Conn] on the
    flow's handle, [None] being the nil handle of a flow that has opened
    none; the eth package is not among the repository files, so what the
    method does on a nil handle is left to the environment. *)
Record Env := {
  GetBestInterface : Addr -> error + RouteEntry;
  InterfaceByIndex : Z -> error + Z;
  RawInterface : option Z -> outcome Z;
  arpDial : Z -> error + Z;
  SetDeadline : Z -> Z -> option error;
  Resolve : Z -> Addr -> error + Z;
  ethListen : Z -> error + Z;
  SetRawBPF : Z -> EndpointFilter -> option error;
  ipstackNew : Addr -> Addr -> Z -> option error
}.

Inductive call :=
| CallGetBestInterface (a : Addr)
| CallInterfaceByIndex (i : Z)
| CallRawInterface (raw : option Z)
| CallArpDial (ifi : Z)
| CallSetDeadline (client : Z) (timeout : Z)
| CallResolve (client : Z) (next : Addr)
| CallClientClose (client : Z)
| CallEthListen (ifi : Z)
| CallSetRawBPF (raw : Z) (f : EndpointFilter)
| CallIPStackNew (l r : Addr)
| CallTcpClose
| CallRawClose (raw : Z)
| CallCloseFn (raddr : AddrPort) (isn : Z).

(** The flow (both [ConnEth] and [Conn]): [closeFn] says whether it carries
    the listener's [deleteConn]. *)
Record Conn := {
  laddr : AddrPort;
  raddr : AddrPort;
  isn : Z;
  tcp : bool;
  raw : option Z;
  ipstack : bool;
  gateway : option Z;
  closeFn : bool
}.

Definition newConnect (laddr raddr : AddrPort) (isn : Z) (closeCall : bool) : Conn :=
  {| laddr := laddr; raddr := raddr; isn := isn; tcp := false; raw := None;
     ipstack := false; gateway := None; closeFn := closeCall |}.

Definition set_gateway (g : Z) (c : Conn) : Conn :=
  {| laddr := laddr c; raddr := raddr c; isn := isn c; tcp := tcp c; raw := raw c;
     ipstack := ipstack c; gateway := Some g; closeFn := closeFn c |}.

Definition set_raw (r : Z) (c : Conn) : Conn :=
  {| laddr := laddr c; raddr := raddr c; isn := isn c; tcp := tcp c; raw := Some r;
     ipstack := ipstack c; gateway := gateway c; closeFn := closeFn c |}.

Definition set_ipstack (c : Conn) : Conn :=
  {| laddr := laddr c; raddr := raddr c; isn := isn c; tcp := tcp c; raw := raw c;
     ipstack := true; gateway := gateway c; closeFn := closeFn c |}.

(** *** A monad for setup code: the flow being set up and the log of the
    calls made are threaded through; a step yields a value to go on with,
    an early [return err], or a panic. *)
Inductive res (A : Type) :=
| Val (a : A)
| Ret (e : error)
| Panic.
Arguments Val {A} a.
Arguments Ret {A} e.
Arguments Panic {A}.

Definition M (A : Type) : Type := Conn * list call -> Conn * list call * res A.

Definition ret {A} (a : A) : M A := fun st => (st, Val a).

Definition bind {A B} (m : M A) (k : A -> M B) : M B :=
  fun st =>
    match m st with
    | (st', Val a) => k a st'
    | (st', Ret e) => (st', Ret e)
    | (st', Panic) => (st', Panic)
    end.

Notation "'let*' x ':=' m 'in' k" := (bind m (fun x => k))
  (at level 10, x name, m at level 100, k at level 200).

Definition fail {A} (e : error) : M A := fun st => (st, Ret e).

Definition log (c : call) : M unit := fun st => ((fst st, snd st ++ [c]), Val tt).

Definition get : M Conn := fun st => (st, Val (fst st)).

Definition modify (f : Conn -> Conn) : M unit := fun st => ((f (fst st), snd st), Val tt).

(** A logged call whose error, if any, is returned through [wrap]. *)
Definition try {A} (c : call) (r : error + A) (wrap : error -> error) : M A :=
  let* _ := log c in
  match r with
  | inl e => fail (wrap e)
  | inr a => ret a
  end.

Definition check (c : call) (r : option error) (wrap : error -> error) : M unit :=
  let* _ := log c in
  match r with
  | Some e => fail (wrap e)
  | None => ret tt
  end.

Definition may_panic {A} (c : call) (r : outcome A) : M A :=
  let* _ := log c in
  match r with
  | Returns a => ret a
  | _ => fun st => (st, Panic)
  end.

(** [defer f()]: [c] is made when the function is left, however it is left. *)
Definition defer {A} (c : call) (body : M A) : M A :=
  fun st =>
    match body st with
    | ((conn, l), r) => ((conn, l ++ [c]), r)
    end.

(** The body the two [init] methods share. *)
Definition init_body (env : Env) (ipcfg : Z) : M unit :=
  let* c := get in
  let* entry := try (CallGetBestInterface (AddrOf (raddr c)))
                    (GetBestInterface env (AddrOf (raddr c))) id in
  (* set gateway mac address *)
  if negb (IsValid (Next entry)) then
    (* is on loopback *)
    fail (ErrorsNew "not support loopback connect")
  else
    let* ifi := try (CallInterfaceByIndex (Interface entry))
                    (InterfaceByIndex env (Interface entry)) WithStack in
    (* get gatway hardware address *)
    let* rifi := may_panic (CallRawInterface (raw c)) (RawInterface env (raw c)) in
    let* client := try (CallArpDial rifi) (arpDial env rifi) WithStack in
    defer (CallClientClose client) (
      let* _ := check (CallSetDeadline client (3 * Second))
                      (SetDeadline env client (3 * Second)) WithStack in
      let* hw := try (CallResolve client (Next entry))
                     (Resolve env client (Next entry)) WithStack in
      let* _ := modify (set_gateway hw) in
      (* create eth conn and set bpf filter *)
      let* r := try (CallEthListen ifi) (ethListen env ifi) id in
      let* _ := modify (set_raw r) in
      let f := {| proto := TCPProtocolNumber; remote := raddr c; local := laddr c |} in
      let* _ := check (CallSetRawBPF r f) (SetRawBPF env r f) id in
      let* _ := check (CallIPStackNew (AddrOf (laddr c)) (AddrOf (raddr c)))
                      (ipstackNew env (AddrOf (laddr c)) (AddrOf (raddr c)) ipcfg) id in
      modify set_ipstack).

(** Does a log resolve the next hop after the link-layer handle was opened
    and its filter attached ([eth.Listen], [SetRawBPF], then [Resolve])? *)
Fixpoint resolves_over_open_handle (l : list call) (opened filtered : bool) : bool :=
  match l with
  | [] => false
  | CallEthListen _ :: l' => resolves_over_open_handle l' true filtered
  | CallSetRawBPF _ _ :: l' => resolves_over_open_handle l' opened true
  | CallResolve _ _ :: l' =>
    (opened && filtered) || resolves_over_open_handle l' opened filtered
  | _ :: l' => resolves_over_open_handle l' opened filtered
  end.

(** Does it open the handle only after a resolution already made? *)
Fixpoint opens_after_resolve (l : list call) (resolved : bool) : bool :=
  match l with
  | [] => false
  | CallResolve _ _ :: l' => opens_after_resolve l' true
  | CallEthListen _ :: l' => resolved || opens_after_resolve l' resolved
  | _ :: l' => opens_after_resolve l' resolved
  end.

(** [Close]: the port guard, the link-layer handle, then the registry's
    callback, each if present. *)
Definition close_calls (c : Conn) : list call :=
  (if tcp c then [CallTcpClose] else []) ++
  match raw c with Some r => [CallRawClose r] | None => [] end ++
  (if closeFn c then [CallCloseFn (raddr c) (isn c)] else []).

(** Is a logged call something else than the registry's callback? *)
Definition not_a_close_callback (c : call) : Prop :=
  match c with CallCloseFn _ _ => False | _ => True end.

Record init_result := {
  conn : Conn;
  calls : list call;
  result : outcome (option error)
}.

(** [func (c *Conn) init(cfg *conn.Config) (err error)] of tcp_linux.go:
    the error is returned and the callers close the flow. *)
Definition Conn_init (env : Env) (ipcfg : Z) (c : Conn) : init_result :=
  match init_body env ipcfg (c, []) with
  | ((c', l), Val _) => {| conn := c'; calls := l; result := Returns None |}
  | ((c', l), Ret e) => {| conn := c'; calls := l; result := Returns (Some e) |}
  | ((c', l), Panic) => {| conn := c'; calls := l; result := Panics |}
  end.

(** [func (c *ConnEth) init(ipcfg *ipstack.Configs) (err error)] of
    eth_linux.go: the same body under
    [defer func() { if err != nil { c.Close() } }()]. *)
Definition ConnEth_init (env : Env) (ipcfg : Z) (c : Conn) : init_result :=
  match init_body env ipcfg (c, []) with
  | ((c', l), Val _) => {| conn := c'; calls := l; result := Returns None |}
  | ((c', l), Ret e) =>
    {| conn := c'; calls := l ++ close_calls c'; result := Returns (Some e) |}
  | ((c', l), Panic) => {| conn := c'; calls := l; result := Panics |}
  end.

(** An environment in which every call answers without error; the next hop
    of every remote is the gateway 10.0.0.254 on interface 2, and the
    [Interface] method answers on a handle that is not open yet. *)
Definition env_ok : Env :=
  {| GetBestInterface := fun _ =>
       inr {| Next := Addr4 167772414; Interface := 2; EntryAddr := Addr4 167772161 |};
     InterfaceByIndex := fun i => inr i;
     RawInterface := fun _ => Returns 2;
     arpDial := fun _ => inr 7;
     SetDeadline := fun _ _ => None;
     Resolve := fun _ _ => inr 3735928559;
     ethListen := fun _ => inr 9;
     SetRawBPF := fun _ _ => None;
     ipstackNew := fun _ _ _ => None |}.

(** The same environment with an unanswered ARP request: the resolution
    times out. *)
Definition env_arp_timeout : Env :=
  {| GetBestInterface := GetBestInterface env_ok;
     InterfaceByIndex := InterfaceByIndex env_ok;
     RawInterface := RawInterface env_ok;
     arpDial := arpDial env_ok;
     SetDeadline := SetDeadline env_ok;
     Resolve := fun _ _ => inl (OpError "read" (ErrorsNew "i/o timeout"));
     ethListen := ethListen env_ok;
     SetRawBPF := SetRawBPF env_ok;
     ipstackNew := ipstackNew env_ok |}.

(** The same environment again, but attaching the filter to the opened
    handle fails. *)
Definition env_bpf_fails : Env :=
  {| GetBestInterface := GetBestInterface env_ok;
     InterfaceByIndex := InterfaceByIndex env_ok;
     RawInterface := RawInterface env_ok;
     arpDial := arpDial env_ok;
     SetDeadline := SetDeadline env_ok;
     Resolve := Resolve env_ok;
     ethListen := ethListen env_ok;
     SetRawBPF := fun _ _ => Some (Errno 22);
     ipstackNew := ipstackNew env_ok |}.

End Flow.

(** ** Go's sort.Slice *)

Module Sort.
Section Slice.
Context {A : Type}.

(** [data.Swap(i, j)] *)
Definition swap (xs : list A) (i j : nat) : list A :=
  match xs !! i, xs !! j with
  | Some a, Some b => <[i:=b]> (<[j:=a]> xs)
  | _, _ => xs
  end.

(** [for j := i; j > 0 && less(j, j-1); j-- { swap(j, j-1) }].  The
    comparator is a closure over the slice being sorted: it is given the
    slice as it is at the time of the call. *)
Fixpoint sink (less : list A -> nat -> nat -> bool) (xs : list A) (j : nat) : list A :=
  match j with
  | O => xs
  | S j' => if less xs j j' then sink less (swap xs j j') j' else xs
  end.

(** [sort.Slice(xs, less)], as the insertion sort the library runs on
    slices of at most 12 elements: [for i := 1; i < n; i++] sink [i]. *)
Definition Slice (less : list A -> nat -> nat -> bool) (xs : list A) : list A :=
  fold_left (sink less) (seq 1 (length xs - 1)) xs.

End Slice.
End Sort.

(** ** conn/tcp/eth_linux.go: listenerEth *)

Module EthRegistry.

(** [time.Time] and [time.Duration] count nanoseconds. *)
Definition Minute : Z := 60 * 1000000000.

Record closedTCPInfo := { DeleteAt : Z; Raddr : AddrPort; ISN : Z }.

Record listenerEth := {
  addr : AddrPort;
  (** AddrPort:ISN *)
  conns : gmap AddrPort Z;
  closedConns : list closedTCPInfo
}.

Definition set_conns (m : gmap AddrPort Z) (l : listenerEth) : listenerEth :=
  {| addr := addr l; conns := m; closedConns := closedConns l |}.

Definition set_closedConns (q : list closedTCPInfo) (l : listenerEth) : listenerEth :=
  {| addr := addr l; conns := conns l; closedConns := q |}.

(** [ListenEth] on success *)
Definition ListenEth (a : AddrPort) : listenerEth :=
  {| addr := a; conns := ∅; closedConns := [] |}.

(** One round of the loop of [purgeDeleted], entered with [i = S j - 1]
    still to look at; the second component says whether the call
    panicked.  [c := l.closedConns[i]] panics past the length, and
    [l.closedConns[:i-1]] panics at [i = 0]. *)
Fixpoint purge_from (now : Z) (n : nat) (l : listenerEth) : listenerEth * bool :=
  match n with
  | O => (l, false)
  | S i =>
    match closedConns l !! i with
    | None => (l, true)
    | Some c =>
      if now - DeleteAt c >? Minute then
        let l :=
          match conns l !! Raddr c with
          | Some isn =>
            if isn =? ISN c then set_conns (delete (Raddr c) (conns l)) l else l
          | None => l
          end in
        match i with
        | O => (l, true)
        | S k => purge_from now i (set_closedConns (take k (closedConns l)) l)
        end
      else (l, false)
    end
  end.

Definition purgeDeleted (now : Z) (l : listenerEth) : listenerEth * bool :=
  purge_from now (length (closedConns l)) l.

(** The comparator handed to [sort.Slice] in [deleteConn]: both times are
    read at index [i]. *)
Definition less (xs : list closedTCPInfo) (i j : nat) : bool :=
  match xs !! i, xs !! i with
  | Some it, Some jt => DeleteAt it >? DeleteAt jt
  | _, _ => false
  end.

Definition deleteConn (l : listenerEth) (raddr : AddrPort) (isn : Z) (now : Z)
  : listenerEth :=
  let q := closedConns l ++ [{| DeleteAt := now; Raddr := raddr; ISN := isn |}] in
  (* desc *)
  set_closedConns (Sort.Slice less q) l.

(** What [l.raw.Read] hands to [Accept]: an error, or a captured packet
    together with the clock at that moment. *)
Inductive read :=
| ReadErr (e : error)
| ReadPkt (pkt : list byte) (now : Z).

(** The bytes of [ip] after a read of [pkt] into [ip[:max]], and the
    count [n] the read reports. *)
Definition fill (ip : list byte) (pkt : list byte) : list byte * nat :=
  let n := Nat.min (length pkt) (length ip) in
  (take n pkt ++ drop n ip, n).

Inductive parsed :=
| Syn (raddr : AddrPort) (isn : Z)
| NotIP
| ParsePanics.

(** The [switch header.IPVersion(ip)] of [Accept].  The IPv6 arm takes
    [As4()] of a 16-byte source address, which panics. *)
Definition parse (ip : list byte) (n : nat) : parsed :=
  let buf := {| Header.cells := ip; Header.len := length ip |} in
  let v := Header.IPVersion buf in
  if v =? 4 then
    match
      iphdr ← Header.slice_to buf n;
      tcphdr ← Header.Payload iphdr;
      src ← Header.SourceAddress iphdr;
      port ← Header.SourcePort tcphdr;
      isn ← Header.SequenceNumber tcphdr;
      Some (Syn (AddrPortFrom (Addr4 src) port) isn)
    with
    | Some p => p
    | None => ParsePanics
    end
  else if v =? 6 then ParsePanics
  else NotIP.

Record accept_result := { flow : option Flow.Conn; err : option error }.

(** The close callbacks a run of [init] made, applied to the listener. *)
Definition notify (now : Z) (l : listenerEth) (calls : list Flow.call) : listenerEth :=
  fold_left (fun l c =>
               match c with
               | Flow.CallCloseFn raddr isn => deleteConn l raddr isn now
               | _ => l
               end) calls l.

Section Accept.

(** [tcpSynSizeRange(is4)] (its source is not among the repository files):
    the least and the largest size of a SYN packet. *)
Variable tcpSynSizeRange : bool -> nat * nat.
Variable env : Flow.Env.
Variable ipcfg : Z.

(** The loop of [Accept], on the reads still to come. *)
Fixpoint accept_loop (l : listenerEth) (ip : list byte) (reads : list read)
  : listenerEth * outcome accept_result * list read :=
  match reads with
  | [] => (l, Blocks, [])
  | ReadErr e :: rest => (l, Returns {| flow := None; err := Some e |}, rest)
  | ReadPkt pkt now :: rest =>
    let '(ip, n) := fill ip pkt in
    if (n <? fst (tcpSynSizeRange (Is4 (AddrOf (addr l)))))%nat then
      (l, Returns {| flow := None; err := Some (ErrInvalidPacket (Z.of_nat n)) |}, rest)
    else
      match purgeDeleted now l with
      | (l, true) => (l, Panics, rest)
      | (l, false) =>
        match parse ip n with
        | ParsePanics => (l, Panics, rest)
        | NotIP => accept_loop l ip rest
        | Syn raddr isn =>
          let fresh := match conns l !! raddr with
                       | Some old => negb (old =? isn)
                       | None => true
                       end in
          if fresh then
            let l := set_conns (<[raddr := isn]> (conns l)) l in
            let c := Flow.newConnect (addr l) raddr isn true in
            let r := Flow.ConnEth_init env ipcfg c in
            let l := notify now l (Flow.calls r) in
            match Flow.result r with
            | Returns e => (l, Returns {| flow := Some (Flow.conn r); err := e |}, rest)
            | _ => (l, Panics, rest)
            end
          else accept_loop l ip rest
        end
      end
  end.

Definition Accept (l : listenerEth) (reads : list read)
  : listenerEth * outcome accept_result * list read :=
  let max := snd (tcpSynSizeRange (Is4 (AddrOf (addr l)))) in
  accept_loop l (replicate max Byte.x00) reads.

(** [Accept] called again and again while reads remain and nothing
    panics: the flows it returned, in order, and the final listener. *)
Fixpoint serve (fuel : nat) (l : listenerEth) (reads : list read)
  : listenerEth * list Flow.Conn :=
  match fuel, reads with
  | O, _ | _, [] => (l, [])
  | S fuel, _ =>
    match Accept l reads with
    | (l, Returns {| flow := Some c |}, rest) =>
      let '(l, cs) := serve fuel l rest in (l, c :: cs)
    | (l, Returns {| flow := None |}, rest) => serve fuel l rest
    | (l, _, _) => (l, [])
    end
  end.

End Accept.

(** [ConnEth.Close] of a flow, as far as the listener sees it. *)
Definition Close (l : listenerEth) (c : Flow.Conn) (now : Z) : listenerEth :=
  notify now l (Flow.close_calls c).

(** Every SYN of the remote [r] among [reads] carries the sequence number
    [i], whatever the buffer of [Accept] held before the read. *)
Definition syns_carry (sizes : bool -> nat * nat) (a r : AddrPort) (i : Z)
           (reads : list read) : Prop :=
  forall pkt now ip i',
    In (ReadPkt pkt now) reads ->
    length ip = snd (sizes (Is4 (AddrOf a))) ->
    parse (fst (fill ip pkt)) (snd (fill ip pkt)) = Syn r i' ->
    i' = i.

End EthRegistry.

(** ** conn/tcp/tcp_linux.go: Listener *)

Module TcpRegistry.

Definition Minute : Z := 60 * 1000000000.

(** [itcp.ID] *)
Record ID := { Local : AddrPort; Remote : AddrPort; ISN : Z }.

#[global] Instance ID_eq_dec : EqDecision ID.
Proof. solve_decision. Defined.

#[global] Instance ID_countable : Countable ID.
Proof.
  refine (inj_countable' (fun i => (Local i, Remote i, ISN i))
                         (fun q => {| Local := fst (fst q); Remote := snd (fst q);
                                      ISN := snd q |}) _).
  intros []; reflexivity.
Defined.

(** [connsMu] is kept as the number of read locks held on it: [Accept]
    takes them with [RLock] and no code releases one.  [timers] are the
    [time.AfterFunc] callbacks not yet due, with their due time. *)
Record Listener := {
  addr : AddrPort;
  conns : gset ID;
  readers : nat;
  timers : list (Z * ID);
  closeErr : option error
}.

Definition Listen (a : AddrPort) : Listener :=
  {| addr := a; conns := ∅; readers := 0; timers := []; closeErr := None |}.

Definition set_conns (s : gset ID) (l : Listener) : Listener :=
  {| addr := addr l; conns := s; readers := readers l; timers := timers l;
     closeErr := closeErr l |}.

Definition RLock (l : Listener) : Listener :=
  {| addr := addr l; conns := conns l; readers := S (readers l); timers := timers l;
     closeErr := closeErr l |}.

Definition set_timers (ts : list (Z * ID)) (l : Listener) : Listener :=
  {| addr := addr l; conns := conns l; readers := readers l; timers := ts;
     closeErr := closeErr l |}.

Definition set_closeErr (e : error) (l : Listener) : Listener :=
  {| addr := addr l; conns := conns l; readers := readers l; timers := timers l;
     closeErr := Some e |}.

(** [Lock] is granted only when no read lock is held; the caller waits
    otherwise, and for ever since none is ever released. *)
Definition can_Lock (l : Listener) : bool := (readers l =? 0)%nat.

(** [deleteConn]: [time.AfterFunc(time.Minute, ...)] *)
Definition deleteConn (l : Listener) (id : ID) (now : Z) : Listener :=
  set_timers (timers l ++ [(now + Minute, id)]) l.

(** The timers due at [now] run: each takes the write lock and deletes
    its identity, or waits for the lock without end. *)
Definition fire (now : Z) (l : Listener) : Listener :=
  let due := filter (fun t => bool_decide (fst t <= now)) (timers l) in
  let pending := filter (fun t => bool_decide (now < fst t)) (timers l) in
  let l := set_timers pending l in
  if can_Lock l
  then set_conns (fold_left (fun s t => s ∖ {[snd t]}) due (conns l)) l
  else l.

Section Accept.

(** [itcp.SizeRange(is4)] (its source is not among the repository files),
    and what closing the listener's two sockets answers. *)
Variable SizeRange : bool -> nat * nat.
Variable env : Flow.Env.
Variable ipcfg : Z.
Variable tcpClose rawClose : option error.

Definition override (cause e : option error) : option error :=
  match e with Some _ => e | None => cause end.

(** [func (l *Listener) close(cause error) error] *)
Definition close (l : Listener) (cause : option error) : Listener * option error :=
  match closeErr l with
  | None =>
    let cause := override (override cause tcpClose) rawClose in
    (set_closeErr (default ErrClosed cause) l, cause)
  | Some e => (l, Some e)
  end.

Record accept_result := { flow : option Flow.Conn; err : option error }.

(** [func (c *Conn) close(cause error) error] for the flow [init] left
    behind: the handle is closed if one was opened, and the callback
    schedules the identity's removal. *)
Definition conn_close (l : Listener) (c : Flow.Conn) (id : ID) (now : Z)
  : Listener :=
  if Flow.closeFn c then deleteConn l id now else l.

Fixpoint accept_loop (l : Listener) (ip : list byte) (reads : list EthRegistry.read)
  : Listener * outcome accept_result * list EthRegistry.read :=
  match reads with
  | [] => (l, Blocks, [])
  | EthRegistry.ReadErr e :: rest =>
    let '(l, e) := close l (Some e) in
    (l, Returns {| flow := None; err := e |}, rest)
  | EthRegistry.ReadPkt pkt now :: rest =>
    let '(ip, n) := EthRegistry.fill ip pkt in
    if (n <? fst (SizeRange (Is4 (AddrOf (addr l)))))%nat then
      (l, Returns {| flow := None; err := Some (ErrInvalidPacket (Z.of_nat n)) |}, rest)
    else
      match EthRegistry.parse ip n with
      | EthRegistry.ParsePanics => (l, Panics, rest)
      | EthRegistry.NotIP => accept_loop l ip rest
      | EthRegistry.Syn raddr isn =>
        let id := {| Local := addr l; Remote := raddr; ISN := isn |} in
        (* l.connsMu.RLock(); _, has := l.conns[id]; l.connsMu.RLock() *)
        let l := RLock l in
        let has := bool_decide (id ∈ conns l) in
        let l := RLock l in
        if has then accept_loop l ip rest
        else if negb (can_Lock l) then (l, Blocks, rest)
        else
          let l := set_conns ({[id]} ∪ conns l) l in
          let c := Flow.newConnect (Local id) (Remote id) (ISN id) true in
          let r := Flow.Conn_init env ipcfg c in
          match Flow.result r with
          | Returns (Some e) =>
            (conn_close l (Flow.conn r) id now,
             Returns {| flow := None; err := Some (OpError "temporary" e) |}, rest)
          | Returns None =>
            (l, Returns {| flow := Some (Flow.conn r); err := None |}, rest)
          | _ => (l, Panics, rest)
          end
      end
  end.

Definition Accept (l : Listener) (reads : list EthRegistry.read)
  : Listener * outcome accept_result * list EthRegistry.read :=
  let max := snd (SizeRange (Is4 (AddrOf (addr l)))) in
  accept_loop l (replicate max Byte.x00) reads.

End Accept.

End TcpRegistry.

(** ** The header stamping engine (ipstack), known through ipstack_test.go *)

Module IPStack.



(** The big-endian value of some bytes. *)
Definition be_value (bs : list byte) : Z :=
  fold_left (fun acc b => acc * 256 + byteZ b) bs 0.




Definition TCPProtocolNumber : Z := 6.


(** [copy(buf[off:], bs)] *)
Definition put (off : nat) (bs buf : list byte) : list byte :=
  take off buf ++ bs ++ drop (off + length bs) buf.

(** Modelled from the spec: the two checksum policies. *)
Inductive Policy := UpdateChecksum | ReCalcChecksum.

(** Modelled from the spec: the engine is built for a fixed (local,
    remote, protocol) triple and keeps the counter of the IPv4
    identification field. *)
Record IPStack := {
  src : Addr;
  dst : Addr;
  proto : Z;
  policy : Policy;
  ttl : Z;
  ipid : Z
}.

(** Modelled from the spec: the header space to reserve. *)
Definition Size (s : IPStack) : nat := if Is4 (src s) then 20%nat else 40%nat.




(** Re-parsing a stamped packet: [header.IPv4] / [header.IPv6]
    [SourceAddress], [DestinationAddress], the protocol and, for IPv4,
    [ID]; [Payload] is the rest after the fixed header. *)
Record parsed := { psrc : Addr; pdst : Addr; pproto : Z; pid : option Z;
                   payload : list byte }.

Definition parse (p : list byte) : option parsed :=
  match p with
  | [] => None
  | b :: _ =>
    let v := Z.shiftr (byteZ b) 4 in
    if (v =? 4) && (20 <=? length p)%nat then
      Some {| psrc := Addr4 (be_value (take 4 (drop 12 p)));
              pdst := Addr4 (be_value (take 4 (drop 16 p)));
              pproto := be_value (take 1 (drop 9 p));
              pid := Some (be_value (take 2 (drop 4 p)));
              payload := drop 20 p |}
    else if (v =? 6) && (40 <=? length p)%nat then
      Some {| psrc := Addr6 (be_value (take 16 (drop 8 p)));
              pdst := Addr6 (be_value (take 16 (drop 24 p)));
              pproto := be_value (take 1 (drop 6 p));
              pid := None;
              payload := drop 40 p |}
    else None
  end.




End IPStack.

(** ** conn: Config and its options *)

Module ConnConfig.

Definition Millisecond : Z := 1000000.

Section Options.

(** [ipstack.Option], [*ipstack.Configs] and [ipstack.Options] belong to
    the ipstack package, whose source is not among the repository
    files. *)
Variable ipstackOption : Type.
Variable ipstackConfigs : Type.
Variable ipstackOptions : list ipstackOption -> ipstackConfigs.

Record Config := {
  UsedPort : bool;
  CtxPeriod : Z;
  TSO : bool;
  IPStack : ipstackConfigs;
  DivertPriorty : Z
}.

(** [type Option]: a function on the [Config] it is handed. *)
Definition Option : Type := Config -> Config.

Definition Options (opts : list Option) : Config :=
  let cfg := {| UsedPort := false;
                CtxPeriod := Millisecond * 100;
                TSO := false;
                IPStack := ipstackOptions [];
                DivertPriorty := 0 |} in
  fold_left (fun cfg opt => opt cfg) opts cfg.

(** UsedPort indicate the local port was bind, default false *)
Definition OptUsedPort : Option := fun c =>
  {| UsedPort := true; CtxPeriod := CtxPeriod c; TSO := TSO c; IPStack := IPStack c;
     DivertPriorty := DivertPriorty c |}.

(** CtxPeriod context cancel check period, default 100ms *)
Definition OptCtxPeriod (period : Z) : Option := fun c =>
  if period >? 0
  then {| UsedPort := UsedPort c; CtxPeriod := period; TSO := TSO c;
          IPStack := IPStack c; DivertPriorty := DivertPriorty c |}
  else c.

(** Checksum set recv/send tansport packet checksum calcuate mode *)
Definition OptChecksum (opts : list ipstackOption) : Option := fun c =>
  {| UsedPort := UsedPort c; CtxPeriod := CtxPeriod c; TSO := TSO c;
     IPStack := ipstackOptions opts; DivertPriorty := DivertPriorty c |}.

(** TSO enable/disable TSO, default false *)
Definition OptTSO (enable : bool) : Option := fun c =>
  {| UsedPort := UsedPort c; CtxPeriod := CtxPeriod c; TSO := enable;
     IPStack := IPStack c; DivertPriorty := DivertPriorty c |}.

(** The options the package itself builds. *)
Inductive built : Option -> Prop :=
| built_UsedPort : built OptUsedPort
| built_CtxPeriod period : built (OptCtxPeriod period)
| built_Checksum opts : built (OptChecksum opts)
| built_TSO enable : built (OptTSO enable).

End Options.

Arguments UsedPort {ipstackConfigs} c.
Arguments CtxPeriod {ipstackConfigs} c.
Arguments TSO {ipstackConfigs} c.
Arguments IPStack {ipstackConfigs} c.
Arguments OptUsedPort {ipstackConfigs} c.
Arguments OptCtxPeriod {ipstackConfigs} period c.
Arguments OptTSO {ipstackConfigs} enable c.

End ConnConfig.

(** ** conn: SetTSO and its cache *)

Module TSO.

(** What [SetTSO] asks of the standard library and of the helper and
    route packages, whose sources are not among the repository files. *)
Record Env := {
  IsPrivate : Addr -> bool;
  IsLoopback : Addr -> bool;
  AddrString : Addr -> string;
  GetTable : error + list Flow.RouteEntry;
  IoctlGifname : Z -> error + string;
  IoctlTSO : string -> bool -> option error
}.

Inductive call :=
| CallGetTable
| CallIoctlGifname (ifIdx : Z)
| CallIoctlTSO (name : string) (tso : bool).

(** [for _, e := range table { if cond(e) { ifIdx = e.Interface; break } }] *)
Fixpoint first_interface (cond : Flow.RouteEntry -> bool) (table : list Flow.RouteEntry) : Z :=
  match table with
  | [] => 0
  | e :: rest => if cond e then Flow.Interface e else first_interface cond rest
  end.

Definition addr_eqb (a b : Addr) : bool := bool_decide (a = b).

Record result := {
  cache : gmap Addr bool;
  err : option error;
  calls : list call
}.

(** [SetTSO]; [tsoCache.cache] is passed in and handed back.  The store
    into the cache is deferred: it runs however the function returns. *)
Definition SetTSO (env : Env) (tsoCache : gmap Addr bool)
           (local remote : Addr) (tso : bool) : result :=
  let public := negb (IsPrivate env remote) in
  let hit := match tsoCache !! local with
             | Some old => Bool.eqb old tso
             | None => false
             end in
  if public && hit then {| cache := tsoCache; err := None; calls := [] |}
  else
    let after := if public then <[local := tso]> tsoCache else tsoCache in
    match GetTable env with
    | inl e => {| cache := after; err := Some e; calls := [CallGetTable] |}
    | inr table =>
      let ifIdx :=
        if IsPrivate env remote
        then first_interface (fun e => IsLoopback env (Flow.EntryAddr e)) table
        else first_interface (fun e => addr_eqb (Flow.EntryAddr e) local) table in
      if ifIdx =? 0 then
        {| cache := after;
           err := Some (ErrorsNew ("invalid local address " ++ AddrString env local));
           calls := [CallGetTable] |}
      else
        match IoctlGifname env ifIdx with
        | inl e =>
          {| cache := after; err := Some e;
             calls := [CallGetTable; CallIoctlGifname ifIdx] |}
        | inr name =>
          {| cache := after; err := IoctlTSO env name tso;
             calls := [CallGetTable; CallIoctlGifname ifIdx; CallIoctlTSO name tso] |}
        end
    end.

(** An environment whose route table cannot be read. *)
Definition env_no_table : Env :=
  {| IsPrivate := fun _ => false;
     IsLoopback := fun _ => false;
     AddrString := fun _ => "";
     GetTable := inl (Errno 1);
     IoctlGifname := fun _ => inl (Errno 19);
     IoctlTSO := fun _ _ => None |}.

(** One in which 10.0.0.0/8 is private and the table holds the loopback
    route on interface 1. *)
Definition env_loopback : Env :=
  {| IsPrivate := fun a => match a with Addr4 z => z / 2 ^ 24 =? 10 | _ => false end;
     IsLoopback := fun a => match a with Addr4 z => z / 2 ^ 24 =? 127 | _ => false end;
     AddrString := fun _ => "";
     GetTable := inr [ {| Flow.Next := AddrZero; Flow.Interface := 1;
                          Flow.EntryAddr := Addr4 2130706433 |} ];
     IoctlGifname := fun _ => inr "lo";
     IoctlTSO := fun _ _ => None |}.

End TSO.

(** ** The receive loop of ConnEth.Read and Conn.Read *)

Module FlowRead.

(** What one round of the receive loop meets: the answer to
    [SetReadDeadline], the answer to [Recvfrom] (a count, an error that
    [errors.Is] [os.ErrDeadlineExceeded], or another error), and whether
    [ctx.Done()] is closed when the [select] looks. *)
Inductive recv :=
| RecvOk (n : nat)
| RecvDeadline
| RecvErr (e : error).

Record round := {
  SetReadDeadline : option error;
  Recvfrom : recv;
  ctxDone : bool
}.

(** The [for] loop at the head of [ConnEth.Read] and [Conn.Read]: the
    count read, or the error to return; with no further round the caller
    is inside [Recvfrom]. *)
Fixpoint recv_loop (ctxErr : error) (rounds : list round) : outcome (error + nat) :=
  match rounds with
  | [] => Blocks
  | r :: rest =>
    match SetReadDeadline r with
    | Some e => Returns (inl e)
    | None =>
      match Recvfrom r with
      | RecvOk n => Returns (inr n)
      | RecvDeadline =>
        if ctxDone r then Returns (inl ctxErr) else recv_loop ctxErr rest
      | RecvErr e => Returns (inl e)
      end
    end
  end.

(** A round in which nothing arrives and nobody has cancelled. *)
Definition quiet (r : round) : Prop :=
  SetReadDeadline r = None /\ Recvfrom r = RecvDeadline /\ ctxDone r = false.

End FlowRead.

(** ** Building a listener: ListenEth and Listen *)

Module Setup.

(** What the two constructors ask of the system beyond [ListenLocal].
    [iconn.SetTSOByAddr] and [bpf.SetRawBPF] are not among the repository
    files. *)
Record Env := {
  guard : PortGuard.OS;
  SetTSOByAddr : Addr -> bool -> option error;
  ListenIP : Addr -> error + Z;
  RawSyscallConn : Z -> option error;
  SetRawBPF : Z -> list Bpf.Instruction -> option error;
  CloseGuard : PortGuard.TCPListener -> option error;
  CloseRaw : Z -> option error
}.

Inductive call :=
| CallListenLocal (laddr : AddrPort) (usedPort : bool)
| CallSetTSOByAddr (a : Addr) (tso : bool)
| CallListenIP (a : Addr)
| CallSyscallConn (raw : Z)
| CallSetRawBPF (raw : Z) (prog : list Bpf.Instruction)
| CallCloseGuard (l : PortGuard.TCPListener)
| CallCloseRaw (raw : Z).

(** The two sockets of a listener, each possibly nil. *)
Record handles := { tcp : option PortGuard.TCPListener; raw : option Z }.

(** [listenerEth.Close], and what [Listener.close] does on its first
    call: each socket that is there is closed, and the error of the last
    close that failed is kept. *)
Definition close_handles (env : Env) (h : handles) : list call * option error :=
  let '(c1, e1) := match tcp h with
                   | Some l => ([CallCloseGuard l], CloseGuard env l)
                   | None => ([], None)
                   end in
  let '(c2, e2) := match raw h with
                   | Some r => ([CallCloseRaw r], CloseRaw env r)
                   | None => ([], None)
                   end in
  (c1 ++ c2, match e2 with Some _ => e2 | None => e1 end).

Record result := {
  listener : option (handles * AddrPort);
  err : option error;
  calls : list call
}.

(** How a failed step ends: [l.Close(); return nil, err] in [ListenEth],
    [return nil, l.close(err)] in [Listen]. *)
Definition fail_eth (env : Env) (h : handles) (e : error) (log : list call) : result :=
  let '(cs, _) := close_handles env h in
  {| listener := None; err := Some e; calls := log ++ cs |}.

Definition fail_tcp (env : Env) (h : handles) (e : error) (log : list call) : result :=
  let '(cs, ce) := close_handles env h in
  {| listener := None; err := Some (default e ce); calls := log ++ cs |}.

Section Listen.
Variable fail : Env -> handles -> error -> list call -> result.
Variable tso : option bool.

(** The steps the two constructors share; [Listen] also sets the offload
    ([tso] is then given). *)
Definition listen (env : Env) (laddr : AddrPort) (usedPort : bool) : result :=
  let g := PortGuard.ListenLocal (guard env) laddr usedPort in
  let h := {| tcp := PortGuard.listener g; raw := None |} in
  let addr := PortGuard.address g in
  let log := [CallListenLocal laddr usedPort] in
  match PortGuard.err g with
  | Some e => fail env h e log
  | None =>
    let '(log, tsoErr) :=
      match tso with
      | Some t => (log ++ [CallSetTSOByAddr (AddrOf addr) t], SetTSOByAddr env (AddrOf addr) t)
      | None => (log, None)
      end in
    match tsoErr with
    | Some e => fail env h e log
    | None =>
      let log := log ++ [CallListenIP (AddrOf addr)] in
      match ListenIP env (AddrOf addr) with
      | inl e => fail env h e log
      | inr r =>
        let h := {| tcp := tcp h; raw := Some r |} in
        let log := log ++ [CallSyscallConn r] in
        match RawSyscallConn env r with
        | Some e => fail env h e log
        | None =>
          let prog := Bpf.FilterDstPortAndSynFlag (Port addr) in
          let log := log ++ [CallSetRawBPF r prog] in
          match SetRawBPF env r prog with
          | Some e => fail env h e log
          | None => {| listener := Some (h, addr); err := None; calls := log |}
          end
        end
      end
    end
  end.

End Listen.

(** [ListenEth] of eth_linux.go and [Listen] of tcp_linux.go *)
Definition ListenEth (env : Env) (laddr : AddrPort) (usedPort : bool) : result :=
  listen fail_eth None env laddr usedPort.

Definition Listen (env : Env) (laddr : AddrPort) (usedPort tso : bool) : result :=
  listen fail_tcp (Some tso) env laddr usedPort.

(** Is a call the closing of a socket? *)
Definition is_close (c : call) : bool :=
  match c with CallCloseGuard _ | CallCloseRaw _ => true | _ => false end.

(** A system on which the port binds but raw sockets are refused, and
    closing the port guard fails as well. *)
Definition env_no_raw : Env :=
  {| guard := PortGuard.os_8080_taken;
     SetTSOByAddr := fun _ _ => None;
     ListenIP := fun _ => inl (Errno 1);
     RawSyscallConn := fun _ => None;
     SetRawBPF := fun _ _ => None;
     CloseGuard := fun _ => Some (Errno 9);
     CloseRaw := fun _ => None |}.

End Setup.

(** ** A listener on 10.0.0.1:80 and SYNs from 10.0.0.2:4000 *)

Module Scenario.

Definition local : AddrPort := AddrPortFrom (Addr4 167772161) 80.
Definition peer : AddrPort := AddrPortFrom (Addr4 167772162) 4000.

(** The SYN of [peer] with initial sequence number [isn]. *)
Definition syn (isn : Z) : list byte :=
  Header.syn_packet 167772162 167772161 4000 80 isn.

Definition second : Z := 1000000000.

End Scenario.

(** * Properties *)

(** ** Bytes *)

Lemma byteZ_range b : 0 <= byteZ b < 256.
Proof.
  unfold byteZ. pose proof (Byte.to_N_bounded b) as H.
  split; [apply N2Z.is_nonneg|]. lia.
Qed.

Lemma byteZ_Zbyte z : 0 <= z < 256 -> byteZ (Zbyte z) = z.
Proof.
  intros Hz. unfold byteZ, Zbyte.
  rewrite Z.mod_small by lia.
  destruct (Byte.of_N (Z.to_N z)) as [b|] eqn:E.
  - apply Byte.to_of_N in E. rewrite E. lia.
  - apply Byte.of_N_None_iff in E. lia.
Qed.


(** ** Packet filters *)

Lemma land_syn_bit (flags : Z) :
  Z.testbit flags 1 = true -> 0 <= flags < 256 -> Z.land flags Bpf.TCPFlagSyn = Bpf.TCPFlagSyn.
Proof.
  intros Hbit Hr. unfold Bpf.TCPFlagSyn.
  apply Z.bits_inj'. intros n Hn.
  rewrite Z.land_spec.
  destruct (Z.eq_dec n 1) as [->|Hne].
  - rewrite Hbit. reflexivity.
  - replace (Z.testbit 2 n) with false; [apply andb_false_r|].
    symmetry. change 2 with (2 ^ 1). apply Z.pow2_bits_false. lia.
Qed.

Lemma load_one_range pkt off v : Bpf.load pkt off 1 = Some v -> 0 <= v < 256.
Proof.
  unfold Bpf.load. case_match; [|discriminate]. intros [= <-].
  destruct (drop (Z.to_nat off) pkt) as [|b l]; simpl; [lia|].
  apply byteZ_range.
Qed.

Lemma load_head b rest : Bpf.load (b :: rest) 0 1 = Some (byteZ b).
Proof.
  unfold Bpf.load. simpl length.
  replace (0 + Z.of_nat 1 <=? Z.of_nat (S (length rest))) with true by (symmetry; apply Z.leb_le; lia).
  reflexivity.
Qed.

Lemma wrap32_small z : 0 <= z < 2 ^ 32 -> Bpf.wrap32 z = z.
Proof. intros H. unfold Bpf.wrap32. apply Z.mod_small. exact H. Qed.

Lemma version_nibble_range b : 0 <= Z.shiftr (byteZ b) 4 < 2 ^ 32.
Proof.
  pose proof (byteZ_range b) as H. rewrite Z.shiftr_div_pow2 by lia.
  change (2 ^ 4) with 16. split.
  - apply Z.div_pos; lia.
  - apply Z.div_lt_upper_bound; lia.
Qed.

Lemma exec_S fuel prog pkt pc A X :
  Bpf.exec (S fuel) prog pkt pc A X =
  match prog !! pc with
  | None => 0
  | Some ins =>
    match ins with
    | Bpf.LoadAbsolute off size =>
      match Bpf.load pkt off size with
      | Some v => Bpf.exec fuel prog pkt (S pc) v X
      | None => 0
      end
    | Bpf.LoadIndirect off size =>
      match Bpf.load pkt (X + off) size with
      | Some v => Bpf.exec fuel prog pkt (S pc) v X
      | None => 0
      end
    | Bpf.LoadMemShift off =>
      match Bpf.load pkt off 1 with
      | Some v => Bpf.exec fuel prog pkt (S pc) A (4 * Z.land v 15)
      | None => 0
      end
    | Bpf.LoadConstant Bpf.RegA v => Bpf.exec fuel prog pkt (S pc) (Bpf.wrap32 v) X
    | Bpf.LoadConstant Bpf.RegX v => Bpf.exec fuel prog pkt (S pc) A (Bpf.wrap32 v)
    | Bpf.ALUOpConstant op v => Bpf.exec fuel prog pkt (S pc) (Bpf.wrap32 (Bpf.alu op A v)) X
    | Bpf.JumpIf c v st sf =>
      Bpf.exec fuel prog pkt (S pc + (if Bpf.test c A v then st else sf))%nat A X
    | Bpf.RetConstant v => v
    end
  end.
Proof. reflexivity. Qed.

Ltac bpf_step :=
  rewrite exec_S;
  match goal with
  | |- context [?p !! ?n] =>
    let r := eval cbv in (p !! n) in change (p !! n) with r
  end; cbv beta iota.

Lemma filter_syn_tail (port : Z) (pkt : list byte) (A X flags : Z) :
  Bpf.load pkt (X + 2) 2 = Some port ->
  Bpf.load pkt (X + 13) 1 = Some flags ->
  Z.testbit flags 1 = true ->
  Bpf.exec 9 (Bpf.FilterDstPortAndSynFlag port) pkt 6 A X = 65535.
Proof.
  intros Hport Hflags Hsyn.
  bpf_step. rewrite Hport.
  bpf_step. unfold Bpf.test. rewrite Z.eqb_refl.
  bpf_step. rewrite Hflags.
  bpf_step. unfold Bpf.alu.
  pose proof (land_syn_bit flags Hsyn (load_one_range _ _ _ Hflags)) as Hl.
  unfold Bpf.TCPFlagSyn in Hl. rewrite Hl.
  change (Bpf.wrap32 2) with 2.
  bpf_step. unfold Bpf.test. change (2 =? 2) with true. cbv iota.
  bpf_step. reflexivity.
Qed.

(** C9: the listener's filter looks at nothing but the SYN bit of the
    flags byte: whenever the transport destination port of a captured
    IPv4 or IPv6 packet is [port] and the SYN bit of its flags byte is set,
    the program accepts the packet, whatever the other flag bits are. *)
Theorem FilterDstPortAndSynFlag_syn_bit_only (port : Z) (pkt : list byte) (flags : Z) :
  Bpf.dstPort pkt = Some port ->
  Bpf.tcpFlags pkt = Some flags ->
  Z.testbit flags 1 = true ->
  Bpf.run (Bpf.FilterDstPortAndSynFlag port) pkt = 65535.
Proof.
  intros Hport Hflags Hsyn.
  destruct pkt as [|b rest]; [discriminate|].
  unfold Bpf.dstPort, Bpf.tcpFlags, Bpf.transportOffset,
    Bpf.TCPDstPortOffset, Bpf.TCPFlagsOffset in *.
  pose proof (version_nibble_range b) as Hv.
  pose proof (load_head b rest) as Hh.
  unfold Bpf.run.
  change (length (Bpf.FilterDstPortAndSynFlag port)) with 14%nat.
  bpf_step. rewrite Hh.
  bpf_step. unfold Bpf.alu. rewrite (wrap32_small _ Hv).
  bpf_step. unfold Bpf.test.
  destruct (Z.shiftr (byteZ b) 4 =? 4) eqn:E4.
  - (* IPv4: X := 4 * IHL *)
    apply Z.eqb_eq in E4. rewrite E4.
    cbn [negb Nat.add mbind option_bind] in *.
    bpf_step. rewrite Hh.
    bpf_step. change (Bpf.test Bpf.JumpNotEqual 4 6) with true. cbv iota. cbn [Nat.add].
    now apply filter_syn_tail with (flags := flags).
  - cbn [negb Nat.add].
    bpf_step. unfold Bpf.test.
    destruct (Z.shiftr (byteZ b) 4 =? 6) eqn:E6; [|discriminate].
    (* IPv6: X := 40 *)
    cbn [negb Nat.add mbind option_bind] in *.
    bpf_step. change (Bpf.wrap32 40) with 40.
    now apply filter_syn_tail with (flags := flags).
Qed.

(** A SYN-ACK (flags 0x12) to port 8080 passes the listener's filter. *)
Lemma FilterDstPortAndSynFlag_synack_witness :
  Bpf.dstPort Bpf.synack_packet = Some 8080 /\
  Bpf.tcpFlags Bpf.synack_packet = Some (Z.lor Bpf.TCPFlagSyn Bpf.TCPFlagAck) /\
  Bpf.run (Bpf.FilterDstPortAndSynFlag 8080) Bpf.synack_packet = 65535.
Proof.
  split; [reflexivity|]. split; [reflexivity|].
  apply (FilterDstPortAndSynFlag_syn_bit_only 8080 Bpf.synack_packet 18);
    reflexivity.
Defined.

(** ** The local port guard *)

(** C7: the outcome of the bind in [ListenLocal].  With the port declared
    expected-already-reserved, a bind failing with address-in-use is a
    success returning the caller's address, and a bind that succeeds is the
    NotReservedPort error; every other bind failure is returned to the
    caller as it is. *)
Theorem ListenLocal_bind_outcome (os : PortGuard.OS) (laddr : AddrPort) (usedPort : bool) :
  (forall e, PortGuard.ListenTCP os laddr = inl e ->
     usedPort = true -> errors_Is e EADDRINUSE = true ->
     PortGuard.err (PortGuard.ListenLocal os laddr usedPort) = None /\
     PortGuard.address (PortGuard.ListenLocal os laddr usedPort) = laddr) /\
  (forall l, PortGuard.ListenTCP os laddr = inr l ->
     usedPort = true ->
     PortGuard.err (PortGuard.ListenLocal os laddr usedPort) =
       Some (WithStack (ErrNotUsedPort (Port laddr)))) /\
  (forall e, PortGuard.ListenTCP os laddr = inl e ->
     usedPort && errors_Is e EADDRINUSE = false ->
     PortGuard.err (PortGuard.ListenLocal os laddr usedPort) = Some e).
Proof.
  unfold PortGuard.ListenLocal.
  split; [|split].
  - intros e He Hu Hin. rewrite He, Hu, Hin. split; reflexivity.
  - intros l Hl Hu. rewrite Hl, Hu. reflexivity.
  - intros e He Hno. rewrite He, Hno. reflexivity.
Qed.

(** C7 at work: port 8080 is taken.  Re-attaching to it succeeds with the
    caller's address, the same request without the declaration fails with
    the bind error, and declaring the free port 9090 reserved is refused. *)
Lemma ListenLocal_bind_outcome_witness :
  let a := AddrPortFrom (Addr4 167772161) 8080 in
  let b := AddrPortFrom (Addr4 167772161) 9090 in
  (PortGuard.err (PortGuard.ListenLocal PortGuard.os_8080_taken a true) = None /\
   PortGuard.address (PortGuard.ListenLocal PortGuard.os_8080_taken a true) = a) /\
  PortGuard.err (PortGuard.ListenLocal PortGuard.os_8080_taken b true) =
    Some (WithStack (ErrNotUsedPort 9090)) /\
  PortGuard.err (PortGuard.ListenLocal PortGuard.os_8080_taken a false) =
    Some (OpError "listen" (OpError "bind" EADDRINUSE)).
Proof.
  intros a b.
  destruct (ListenLocal_bind_outcome PortGuard.os_8080_taken a true) as [H1 _].
  destruct (ListenLocal_bind_outcome PortGuard.os_8080_taken b true) as [_ [H2 _]].
  destruct (ListenLocal_bind_outcome PortGuard.os_8080_taken a false) as [_ [_ H3]].
  split; [|split].
  - apply (H1 (OpError "listen" (OpError "bind" EADDRINUSE))); reflexivity.
  - apply (H2 {| PortGuard.fd := 3; PortGuard.boundPort := 9090 |}); reflexivity.
  - apply (H3 (OpError "listen" (OpError "bind" EADDRINUSE))); reflexivity.
Defined.

(** ** The embedded TCP engine *)

Lemma read_until_ready_skips (pre : list Stack.ReadResult) r rest :
  Forall (fun p => snd p = Some Stack.ErrWouldBlock) pre ->
  Stack.isWouldBlock (snd r) = false ->
  Stack.read_until_ready (pre ++ r :: rest) = Some r.
Proof.
  intros Hpre Hr. induction Hpre as [|p pre Hp _ IH]; simpl.
  - rewrite Hr. reflexivity.
  - rewrite Hp. simpl. exact IH.
Qed.

(** C10: once the hosted endpoint is closed for receiving, that is once
    its [Read] answers [ErrClosedForReceive] (at once or after any number
    of would-block answers), [RecvSeg] returns the count 0 together with
    [io.EOF], not an error made from the engine's text. *)
Theorem RecvSeg_closed_for_receive_is_EOF
        (s : Stack.TCPStackGvisor) (woken : bool)
        (pre : list Stack.ReadResult) (n : Z) (rest : list Stack.ReadResult) :
  Stack.passes_gate s woken = true ->
  Stack.ep s = true ->
  Forall (fun p => snd p = Some Stack.ErrWouldBlock) pre ->
  Stack.RecvSeg s woken (pre ++ (n, Some Stack.ErrClosedForReceive) :: rest)
  = Returns (0, Some EOF).
Proof.
  intros Hgate Hep Hpre. unfold Stack.RecvSeg. rewrite Hgate, Hep. simpl negb. cbv iota.
  destruct Hpre as [|p pre Hp Hpre]; simpl.
  - reflexivity.
  - rewrite Hp. simpl.
    rewrite (read_until_ready_skips pre (n, Some Stack.ErrClosedForReceive) rest Hpre eq_refl).
    reflexivity.
Qed.

(** C10 on a run: the engine was committed by [RecvRaw], the endpoint is
    closed for receiving, and a first [Read] would block. *)
Lemma RecvSeg_closed_for_receive_witness :
  let h := {| Stack.NewEndpoint := None; Stack.Bind := None; Stack.Listen := None;
              Stack.Connect := None; Stack.LastError := None;
              Stack.Write := fun _ => (0, None) |} in
  let s := fst (fst (Stack.RecvRaw h (Stack.NewTCPStackGvisor 19986 8080) [])) in
  Stack.RecvSeg s false
    [(0, Some Stack.ErrWouldBlock); (0, Some Stack.ErrClosedForReceive)]
  = Returns (0, Some EOF).
Proof.
  intros h s.
  apply (RecvSeg_closed_for_receive_is_EOF s false [(0, Some Stack.ErrWouldBlock)] 0 []).
  - reflexivity.
  - reflexivity.
  - repeat constructor.
Defined.

(** The stored initialization error is always a [net.OpError]. *)
Definition initErr_is_OpError (s : Stack.TCPStackGvisor) : Prop :=
  match Stack.initErr s with
  | None => True
  | Some (OpError _ _) => True
  | Some _ => False
  end.

Lemma initErr_is_OpError_new lport rport :
  initErr_is_OpError (Stack.NewTCPStackGvisor lport rport).
Proof. exact I. Qed.

Lemma initErr_is_OpError_commit d h s :
  initErr_is_OpError s -> initErr_is_OpError (fst (fst (Stack.commit d h s))).
Proof.
  unfold Stack.commit, Stack.initBase, initErr_is_OpError. intros Hs.
  destruct (Stack.inited s); [exact Hs|].
  destruct (Stack.NewEndpoint h); simpl; [exact I|].
  destruct (Stack.Bind h); simpl; exact I.
Qed.

Lemma initErr_is_OpError_driver d h s :
  initErr_is_OpError s -> initErr_is_OpError (fst (Stack.run_driver d h s)).
Proof.
  unfold initErr_is_OpError. intros Hs.
  destruct d; unfold Stack.run_driver, Stack.initConnect, Stack.initAccept.
  - destruct (Stack.connectError h); simpl; [exact I | exact Hs].
  - destruct (Stack.Listen h); simpl; [exact I | exact Hs].
Qed.

Lemma SendSeg_error_is_ErrorsNew h s woken seg n e :
  Stack.SendSeg h s woken seg = Returns (n, Some e) ->
  exists text, e = ErrorsNew text.
Proof.
  unfold Stack.SendSeg.
  destruct (negb (Stack.passes_gate s woken)); [discriminate|].
  destruct (negb (Stack.ep s)); [discriminate|].
  destruct (Stack.Write h seg) as [m [e'|]]; intros [= <- <-].
  eexists; reflexivity.
Qed.

Lemma RecvSeg_error_is_EOF_or_ErrorsNew s woken reads n e :
  Stack.RecvSeg s woken reads = Returns (n, Some e) ->
  e = EOF \/ exists text, e = ErrorsNew text.
Proof.
  unfold Stack.RecvSeg.
  destruct (negb (Stack.passes_gate s woken)); [discriminate|].
  destruct (negb (Stack.ep s)); [discriminate|].
  destruct reads as [|r rest]; [discriminate|].
  destruct (if Stack.isWouldBlock (snd r) then Stack.read_until_ready rest else Some r)
    as [[m [[]|]]|]; intros [= <- <-]; solve [left; reflexivity | right; eexists; reflexivity].
Qed.

(** C3, the statement as it is written fails: after a failed bind the
    role-committing [RecvRaw] returns the stored error, yet a later
    [SendSeg] and a later [RecvSeg] return other errors, and a caller that
    was already waiting on initialization is never woken. *)
Lemma initErr_not_returned_to_SendSeg_RecvSeg :
  let s0 := Stack.NewTCPStackGvisor 19986 8080 in
  let e := OpError "bind" (ErrorsNew "port is in use") in
  let step := Stack.RecvRaw Stack.bind_fails s0 [] in
  let s1 := fst (fst step) in
  snd (fst step) = Returns (None, Some e) /\
  snd step = None /\
  Stack.initErr s1 = Some e /\
  Stack.SendSeg Stack.bind_fails s1 false [] <> Returns (0, Some e) /\
  Stack.RecvSeg s1 false [(0, Some (Stack.ErrTcpip "endpoint is in invalid state"))]
    <> Returns (0, Some e) /\
  Stack.SendSeg Stack.bind_fails s0 false [] = Blocks /\
  Stack.RecvSeg s0 false [(0, Some (Stack.ErrTcpip "endpoint is in invalid state"))]
    = Blocks.
Proof.
  cbv zeta. repeat split; try reflexivity; discriminate.
Qed.

(** C3 as the code has it.  Every setup failure is stored in [initErr]: a
    failure of [initBase] (new endpoint, bind) is also what the
    role-committing [RecvRaw]/[SendRaw] returns, and no handshake driver is
    started; a failing listen or connect is stored by the driver, which then
    ends without [Broadcast].  [SendSeg] and [RecvSeg] never return the
    stored error, and a caller waiting on initialization stays there as
    long as no broadcast comes. *)
Theorem initErr_stored_not_surfaced (h : Stack.Hosted) (s : Stack.TCPStackGvisor) :
  (forall d e, Stack.inited s = false ->
     snd (Stack.initBase h (Stack.set_inited s)) = Some e ->
     Stack.initErr (fst (fst (Stack.commit d h s))) = Some e /\
     snd (fst (Stack.commit d h s)) = Some e /\
     snd (Stack.commit d h s) = None) /\
  (forall e, Stack.Listen h = Some e ->
     Stack.initErr (fst (Stack.initAccept h s)) =
       Some (OpError "listen" (ErrorsNew (Stack.String_of e))) /\
     snd (Stack.initAccept h s) = false) /\
  (forall e, Stack.connectError h = Some e ->
     Stack.initErr (fst (Stack.initConnect h s)) =
       Some (OpError "connect" (ErrorsNew (Stack.String_of e))) /\
     snd (Stack.initConnect h s) = false) /\
  (initErr_is_OpError s -> Stack.initErr s <> None ->
     forall woken seg reads n,
       Stack.SendSeg h s woken seg <> Returns (n, Stack.initErr s) /\
       Stack.RecvSeg s woken reads <> Returns (n, Stack.initErr s)) /\
  (Stack.inited s = false ->
     forall seg reads,
       Stack.SendSeg h s false seg = Blocks /\
       Stack.RecvSeg s false reads = Blocks).
Proof.
  repeat apply conj.
  - intros d e Hin He. unfold Stack.commit. rewrite Hin.
    destruct (Stack.initBase h (Stack.set_inited s)) as [s' e'] eqn:E.
    simpl in He. subst e'. simpl. repeat split.
  - intros e He. unfold Stack.initAccept. rewrite He. split; reflexivity.
  - intros e He. unfold Stack.initConnect. rewrite He. split; reflexivity.
  - intros Hwf Hsome woken seg reads n. unfold initErr_is_OpError in Hwf.
    destruct (Stack.initErr s) as [e0|] eqn:E0; [|congruence].
    split; intros Hret.
    + apply SendSeg_error_is_ErrorsNew in Hret as [text ->]. exact Hwf.
    + apply RecvSeg_error_is_EOF_or_ErrorsNew in Hret as [->|[text ->]]; exact Hwf.
  - intros Hin seg reads. unfold Stack.SendSeg, Stack.RecvSeg, Stack.passes_gate.
    rewrite Hin. split; reflexivity.
Qed.

(** C3 on the two failing engines: a bind failure at commit time and a
    connect failure in the driver. *)
Lemma initErr_stored_not_surfaced_witness :
  let s0 := Stack.NewTCPStackGvisor 19986 8080 in
  let s1 := fst (fst (Stack.commit Stack.DriveConnect Stack.bind_fails s0)) in
  let s2 := fst (fst (Stack.commit Stack.DriveConnect Stack.connect_fails s0)) in
  (Stack.initErr s1 = Some (OpError "bind" (ErrorsNew "port is in use")) /\
   snd (Stack.commit Stack.DriveConnect Stack.bind_fails s0) = None) /\
  (Stack.initErr (fst (Stack.initConnect Stack.connect_fails s2)) =
     Some (OpError "connect" (ErrorsNew "connection was refused")) /\
   snd (Stack.initConnect Stack.connect_fails s2) = false) /\
  Stack.SendSeg Stack.bind_fails s1 true [] <> Returns (0, Stack.initErr s1) /\
  Stack.SendSeg Stack.bind_fails s0 false [] = Blocks.
Proof.
  intros s0 s1 s2.
  destruct (initErr_stored_not_surfaced Stack.bind_fails s0) as [H1 [_ [_ [_ H5]]]].
  destruct (initErr_stored_not_surfaced Stack.connect_fails s2) as [_ [_ [H3 _]]].
  destruct (initErr_stored_not_surfaced Stack.bind_fails s1) as [_ [_ [_ [H4 _]]]].
  repeat apply conj.
  - apply (H1 Stack.DriveConnect); reflexivity.
  - apply (H1 Stack.DriveConnect (OpError "bind" (ErrorsNew "port is in use"))); reflexivity.
  - apply (H3 (Stack.ErrTcpip "connection was refused")); reflexivity.
  - apply (H3 (Stack.ErrTcpip "connection was refused")); reflexivity.
  - apply (H4 I ltac:(discriminate) true [] [] 0).
  - apply (H5 eq_refl [] []).
Defined.

(** ** Flow setup *)

(** C8 on the code: for a flow as [newConnect]/[newConnectEth] builds it,
    neither [init] ever resolves the next hop over an opened and filtered
    handle.  The ARP client is dialled on the interface of the flow's
    handle while that handle is still nil, and whenever the link-layer
    handle is opened at all, the resolution has already been made. *)
Theorem init_resolves_before_opening_handle
        (env : Flow.Env) (ipcfg : Z) (laddr raddr : AddrPort) (isn : Z) (closeCall : bool) :
  let c := Flow.newConnect laddr raddr isn closeCall in
  let eth := Flow.calls (Flow.ConnEth_init env ipcfg c) in
  let tcp := Flow.calls (Flow.Conn_init env ipcfg c) in
  Flow.resolves_over_open_handle eth false false = false /\
  Flow.resolves_over_open_handle tcp false false = false /\
  (forall ifi, In (Flow.CallEthListen ifi) eth ->
     In (Flow.CallRawInterface None) eth /\ Flow.opens_after_resolve eth false = true) /\
  (forall ifi, In (Flow.CallEthListen ifi) tcp ->
     In (Flow.CallRawInterface None) tcp /\ Flow.opens_after_resolve tcp false = true).
Proof.
  cbv zeta.
  unfold Flow.ConnEth_init, Flow.Conn_init, Flow.init_body, Flow.newConnect.
  cbv [Flow.bind Flow.try Flow.check Flow.may_panic Flow.defer Flow.log Flow.get
       Flow.modify Flow.fail Flow.ret].
  destruct closeCall; cbn -[Z.mul];
  repeat match goal with
         | |- context [match ?x with _ => _ end] =>
           match type of x with
           | sum _ _ => destruct x
           | option _ => destruct x
           | outcome _ => destruct x
           | bool => destruct x
           end; cbn -[Z.mul]
         end;
  repeat apply conj; try reflexivity;
    intros i H; cbn in H |- *;
    first [ solve [intuition discriminate] | solve [intuition] ].
Qed.

(** The order of the calls when every call succeeds, for a flow the
    listener builds for the SYN of 10.0.0.2:4000 to 10.0.0.1:80: the
    interface of the unopened handle is asked for, the ARP client is
    dialled, given its 3-second deadline and used, and only then is the
    handle opened and filtered. *)
Example init_call_order :
  Flow.calls (Flow.ConnEth_init Flow.env_ok 0
    (Flow.newConnect (AddrPortFrom (Addr4 167772161) 80)
                     (AddrPortFrom (Addr4 167772162) 4000) 7 true)) =
  [ Flow.CallGetBestInterface (Addr4 167772162);
    Flow.CallInterfaceByIndex 2;
    Flow.CallRawInterface None;
    Flow.CallArpDial 2;
    Flow.CallSetDeadline 7 (3 * Flow.Second);
    Flow.CallResolve 7 (Addr4 167772414);
    Flow.CallEthListen 2;
    Flow.CallSetRawBPF 9 {| Flow.proto := 6;
                            Flow.remote := AddrPortFrom (Addr4 167772162) 4000;
                            Flow.local := AddrPortFrom (Addr4 167772161) 80 |};
    Flow.CallIPStackNew (Addr4 167772161) (Addr4 167772162);
    Flow.CallClientClose 7 ].
Proof. reflexivity. Qed.

(** A resolution that times out: the ARP client is closed and the flow
    torn down (here the registry's callback, nothing else being held)
    before the error is returned. *)
Example init_arp_timeout_teardown :
  let r := Flow.ConnEth_init Flow.env_arp_timeout 0
    (Flow.newConnect (AddrPortFrom (Addr4 167772161) 80)
                     (AddrPortFrom (Addr4 167772162) 4000) 7 true) in
  Flow.result r = Returns (Some (WithStack (OpError "read" (ErrorsNew "i/o timeout")))) /\
  drop 6 (Flow.calls r) =
    [ Flow.CallClientClose 7;
      Flow.CallCloseFn (AddrPortFrom (Addr4 167772162) 4000) 7 ].
Proof. split; reflexivity. Qed.

(** ** The registries: packets that are too short *)

Lemma fill_length ip pkt : length (fst (EthRegistry.fill ip pkt)) = length ip.
Proof.
  unfold EthRegistry.fill. simpl.
  rewrite length_app, length_take, length_drop. lia.
Qed.

(** C5, the statement as it is written fails: a packet of 30 bytes makes
    either [Accept] return an error to its caller, with the well-formed SYN
    behind it left unread. *)
Lemma Accept_short_packet_is_returned :
  let reads := [EthRegistry.ReadPkt (take 30 (Scenario.syn 1)) 0;
                EthRegistry.ReadPkt (Scenario.syn 1) 0] in
  EthRegistry.Accept Header.syn_sizes Flow.env_ok 0
      (EthRegistry.ListenEth Scenario.local) reads =
    (EthRegistry.ListenEth Scenario.local,
     Returns {| EthRegistry.flow := None; EthRegistry.err := Some (ErrInvalidPacket 30) |},
     [EthRegistry.ReadPkt (Scenario.syn 1) 0]) /\
  TcpRegistry.Accept Header.syn_sizes Flow.env_ok 0 None None
      (TcpRegistry.Listen Scenario.local) reads =
    (TcpRegistry.Listen Scenario.local,
     Returns {| TcpRegistry.flow := None; TcpRegistry.err := Some (ErrInvalidPacket 30) |},
     [EthRegistry.ReadPkt (Scenario.syn 1) 0]).
Proof. split; vm_compute; reflexivity. Qed.

(** C5 as the code has it: when a read gives fewer bytes than the least
    size of a SYN, [Accept] (of either listener) returns the error
    "recved invalid ip packet, bytes n" to its caller at once; the listener
    is left as it was and the later packets unread. *)
Theorem Accept_short_packet_returns_error
        (sizes : bool -> nat * nat) (env : Flow.Env) (ipcfg : Z)
        (tcpClose rawClose : option error)
        (le : EthRegistry.listenerEth) (lt : TcpRegistry.Listener)
        (ip pkt : list byte) (now : Z) (rest : list EthRegistry.read) :
  let n := snd (EthRegistry.fill ip pkt) in
  (n < fst (sizes (Is4 (AddrOf (EthRegistry.addr le)))))%nat ->
  (n < fst (sizes (Is4 (AddrOf (TcpRegistry.addr lt)))))%nat ->
  EthRegistry.accept_loop sizes env ipcfg le ip (EthRegistry.ReadPkt pkt now :: rest) =
    (le, Returns {| EthRegistry.flow := None;
                    EthRegistry.err := Some (ErrInvalidPacket (Z.of_nat n)) |}, rest) /\
  TcpRegistry.accept_loop sizes env ipcfg tcpClose rawClose lt ip
      (EthRegistry.ReadPkt pkt now :: rest) =
    (lt, Returns {| TcpRegistry.flow := None;
                    TcpRegistry.err := Some (ErrInvalidPacket (Z.of_nat n)) |}, rest).
Proof.
  intros n He Ht. subst n.
  apply Nat.ltb_lt in He, Ht.
  split.
  - cbn [EthRegistry.accept_loop].
    destruct (EthRegistry.fill ip pkt) as [ip' n]. cbn [snd] in *.
    rewrite He. reflexivity.
  - cbn [TcpRegistry.accept_loop].
    destruct (EthRegistry.fill ip pkt) as [ip' n]. cbn [snd] in *.
    rewrite Ht. reflexivity.
Qed.

(** C5 at work on a 30-byte capture. *)
Lemma Accept_short_packet_returns_error_witness :
  let ip := replicate 120 Byte.x00 in
  let pkt := take 30 (Scenario.syn 1) in
  EthRegistry.accept_loop Header.syn_sizes Flow.env_ok 0
      (EthRegistry.ListenEth Scenario.local) ip [EthRegistry.ReadPkt pkt 0] =
    (EthRegistry.ListenEth Scenario.local,
     Returns {| EthRegistry.flow := None; EthRegistry.err := Some (ErrInvalidPacket 30) |},
     []) /\
  TcpRegistry.accept_loop Header.syn_sizes Flow.env_ok 0 None None
      (TcpRegistry.Listen Scenario.local) ip [EthRegistry.ReadPkt pkt 0] =
    (TcpRegistry.Listen Scenario.local,
     Returns {| TcpRegistry.flow := None; TcpRegistry.err := Some (ErrInvalidPacket 30) |},
     []).
Proof.
  intros ip pkt.
  apply (Accept_short_packet_returns_error Header.syn_sizes Flow.env_ok 0 None None
           (EthRegistry.ListenEth Scenario.local) (TcpRegistry.Listen Scenario.local)
           ip pkt 0 []); vm_compute; lia.
Defined.

(** ** The retired-identity queue of listenerEth *)

Lemma swap_adjacent_perm {A} (xs : list A) (j : nat) : Sort.swap xs (S j) j ≡ₚ xs.
Proof.
  revert xs. induction j as [|j IH]; intros xs.
  - destruct xs as [|x0 [|x1 rest]]; try reflexivity.
    unfold Sort.swap. simpl. apply perm_swap.
  - destruct xs as [|x xs]; [reflexivity|].
    specialize (IH xs). unfold Sort.swap in *. simpl.
    destruct (xs !! S j) as [a|]; [|reflexivity].
    destruct (xs !! j) as [b|]; [|reflexivity].
    simpl. apply perm_skip. exact IH.
Qed.

Lemma sink_perm {A} (less : list A -> nat -> nat -> bool) (xs : list A) (j : nat) :
  Sort.sink less xs j ≡ₚ xs.
Proof.
  revert xs. induction j as [|j IH]; intros xs; simpl; [reflexivity|].
  destruct (less xs (S j) j); [|reflexivity].
  rewrite IH. apply swap_adjacent_perm.
Qed.

Lemma Slice_perm {A} (less : list A -> nat -> nat -> bool) (xs : list A) :
  Sort.Slice less xs ≡ₚ xs.
Proof.
  unfold Sort.Slice. generalize (seq 1 (length xs - 1)).
  intros idx. revert xs. induction idx as [|i idx IH]; intros xs; simpl; [reflexivity|].
  rewrite IH. apply sink_perm.
Qed.

(** As the comparator of [deleteConn] reads both times at the same index,
    it never reports an inversion, and the sort moves nothing. *)
Lemma less_never (xs : list EthRegistry.closedTCPInfo) (i j : nat) :
  EthRegistry.less xs i j = false.
Proof.
  unfold EthRegistry.less. destruct (xs !! i); [|reflexivity].
  rewrite Z.gtb_ltb. apply Z.ltb_irrefl.
Qed.

Lemma Slice_less_id (xs : list EthRegistry.closedTCPInfo) :
  Sort.Slice EthRegistry.less xs = xs.
Proof.
  unfold Sort.Slice. generalize (seq 1 (length xs - 1)).
  intros idx. revert xs. induction idx as [|i idx IH]; intros xs; simpl; [reflexivity|].
  replace (Sort.sink EthRegistry.less xs i) with xs; [apply IH|].
  destruct i; simpl; [reflexivity|]. rewrite less_never. reflexivity.
Qed.

Lemma deleteConn_appends l raddr isn now :
  EthRegistry.closedConns (EthRegistry.deleteConn l raddr isn now) =
  EthRegistry.closedConns l ++
    [{| EthRegistry.DeleteAt := now; EthRegistry.Raddr := raddr; EthRegistry.ISN := isn |}].
Proof. unfold EthRegistry.deleteConn. simpl. apply Slice_less_id. Qed.

Lemma deleteConn_conns l raddr isn now :
  EthRegistry.conns (EthRegistry.deleteConn l raddr isn now) = EthRegistry.conns l.
Proof. reflexivity. Qed.

Lemma purge_from_prefix now n l :
  exists k, EthRegistry.closedConns (fst (EthRegistry.purge_from now n l)) =
            take k (EthRegistry.closedConns l).
Proof.
  revert l. induction n as [|i IH]; intros l; simpl.
  - exists (length (EthRegistry.closedConns l)). symmetry. apply firstn_all.
  - destruct (EthRegistry.closedConns l !! i) as [c|] eqn:Ec;
      [|exists (length (EthRegistry.closedConns l)); symmetry; apply firstn_all].
    destruct (now - EthRegistry.DeleteAt c >? EthRegistry.Minute);
      [|exists (length (EthRegistry.closedConns l)); symmetry; apply firstn_all].
    set (l1 := match EthRegistry.conns l !! EthRegistry.Raddr c with
               | Some isn => if isn =? EthRegistry.ISN c
                             then EthRegistry.set_conns
                                    (delete (EthRegistry.Raddr c) (EthRegistry.conns l)) l
                             else l
               | None => l
               end).
    assert (Hq : EthRegistry.closedConns l1 = EthRegistry.closedConns l).
    { subst l1. destruct (EthRegistry.conns l !! EthRegistry.Raddr c) as [isn|];
        [destruct (isn =? EthRegistry.ISN c)|]; reflexivity. }
    destruct i as [|k].
    + simpl. rewrite Hq. exists (length (EthRegistry.closedConns l)).
      symmetry. apply firstn_all.
    + destruct (IH (EthRegistry.set_closedConns (take k (EthRegistry.closedConns l1)) l1))
        as [k' Hk'].
      rewrite Hk'. simpl. rewrite Hq. rewrite take_take. eexists; reflexivity.
Qed.

(** The prune pass at 100 s on three retired entries stamped 0 s, 1 s and
    2 s: it cuts the two at the back off the queue, keeps the one at the
    front, and panics on the index it reads next. *)
Lemma purge_cuts_the_back_of_the_queue :
  let e := fun t isn => {| EthRegistry.DeleteAt := t * Scenario.second;
                           EthRegistry.Raddr := Scenario.peer;
                           EthRegistry.ISN := isn |} in
  let l := EthRegistry.set_closedConns [e 0 1; e 1 2; e 2 3]
             (EthRegistry.ListenEth Scenario.local) in
  snd (EthRegistry.purgeDeleted (100 * Scenario.second) l) = true /\
  EthRegistry.closedConns (fst (EthRegistry.purgeDeleted (100 * Scenario.second) l))
    = [e 0 1] /\
  EthRegistry.closedConns (fst (EthRegistry.purgeDeleted (100 * Scenario.second) l))
    <> drop 1 (EthRegistry.closedConns l).
Proof. repeat split; vm_compute; first [reflexivity | discriminate]. Qed.

(** C6 against the code.  A close notification puts (identity, time) at
    the tail of the retired queue, and the sort that follows moves nothing,
    its comparator reading one index twice: the queue stays in insertion
    order.  The prune pass starts at the back.  A pass that returns found
    the last entry no older than a minute, or no entry, and removed
    nothing.  A pass that finds the last entry older than a minute cuts
    with [closedConns[:i-1]] and panics: it leaves the queue without its
    last two entries, and a queue of one entry whole, where the bound of
    the slice is -1.  No pass removes an entry from the front and
    returns. *)
Theorem retired_queue_appended_and_cut_at_the_back
        (l : EthRegistry.listenerEth) (raddr : AddrPort) (isn now : Z) :
  let entry := {| EthRegistry.DeleteAt := now; EthRegistry.Raddr := raddr;
                  EthRegistry.ISN := isn |} in
  let q := EthRegistry.closedConns l in
  EthRegistry.closedConns (EthRegistry.deleteConn l raddr isn now) = q ++ [entry] /\
  (snd (EthRegistry.purgeDeleted now l) = false ->
   fst (EthRegistry.purgeDeleted now l) = l /\
   forall c, last q = Some c -> now - EthRegistry.DeleteAt c <= EthRegistry.Minute) /\
  (forall c, last q = Some c -> EthRegistry.Minute < now - EthRegistry.DeleteAt c ->
   snd (EthRegistry.purgeDeleted now l) = true /\
   EthRegistry.closedConns (fst (EthRegistry.purgeDeleted now l)) =
     if (length q =? 1)%nat then q else take (length q - 2) q).
Proof.
  intros entry q. split; [apply deleteConn_appends|].
  unfold EthRegistry.purgeDeleted. subst q.
  destruct (length (EthRegistry.closedConns l)) as [|i] eqn:Hlen.
  - apply length_zero_iff_nil in Hlen. rewrite Hlen. simpl.
    split; [intros _; split; [reflexivity|discriminate]|discriminate].
  - rewrite last_lookup, Hlen. cbn [pred EthRegistry.purge_from].
    destruct (EthRegistry.closedConns l !! i) as [c|] eqn:Hi;
      [|apply lookup_ge_None in Hi; lia].
    destruct (now - EthRegistry.DeleteAt c >? EthRegistry.Minute) eqn:E.
    + apply Z.gtb_lt in E.
      set (l1 := match EthRegistry.conns l !! EthRegistry.Raddr c with
                 | Some isn0 => if isn0 =? EthRegistry.ISN c
                                then EthRegistry.set_conns
                                       (delete (EthRegistry.Raddr c) (EthRegistry.conns l)) l
                                else l
                 | None => l
                 end).
      assert (Hq : EthRegistry.closedConns l1 = EthRegistry.closedConns l).
      { subst l1. destruct (EthRegistry.conns l !! EthRegistry.Raddr c) as [isn0|];
          [destruct (isn0 =? EthRegistry.ISN c)|]; reflexivity. }
      destruct i as [|k].
      * split; [discriminate|]. intros c' _ _. split; [reflexivity|].
        simpl. exact Hq.
      * cbn [EthRegistry.purge_from].
        replace (EthRegistry.closedConns
                   (EthRegistry.set_closedConns (take k (EthRegistry.closedConns l1)) l1) !! k)
          with (@None EthRegistry.closedTCPInfo)
          by (symmetry; simpl; apply lookup_take_ge; lia).
        split; [discriminate|]. intros c' _ _. split; [reflexivity|].
        simpl. rewrite Hq. f_equal. lia.
    + rewrite Z.gtb_ltb in E. apply Z.ltb_ge in E.
      split.
      * intros _. split; [reflexivity|]. intros c' [= <-]. exact E.
      * intros c' [= <-] Hc. lia.
Qed.

(** A prune pass that returns has changed nothing: it either stops at a
    last entry that is not older than a minute, or panics. *)
Lemma purgeDeleted_returns now l :
  snd (EthRegistry.purgeDeleted now l) = false ->
  fst (EthRegistry.purgeDeleted now l) = l.
Proof.
  unfold EthRegistry.purgeDeleted.
  destruct (length (EthRegistry.closedConns l)) as [|i]; simpl; [reflexivity|].
  destruct (EthRegistry.closedConns l !! i) as [c|]; [|discriminate].
  destruct (now - EthRegistry.DeleteAt c >? EthRegistry.Minute); [|reflexivity].
  destruct i as [|k]; [discriminate|].
  simpl. rewrite lookup_take_ge by lia. discriminate.
Qed.

Lemma purgeDeleted_fresh now l :
  (forall c, last (EthRegistry.closedConns l) = Some c ->
             now - EthRegistry.DeleteAt c <= EthRegistry.Minute) ->
  EthRegistry.purgeDeleted now l = (l, false).
Proof.
  intros Hlast. unfold EthRegistry.purgeDeleted.
  destruct (length (EthRegistry.closedConns l)) as [|i] eqn:Hlen;
    [reflexivity|].
  simpl.
  destruct (EthRegistry.closedConns l !! i) as [c|] eqn:Hi.
  - assert (Hc : last (EthRegistry.closedConns l) = Some c).
    { rewrite last_lookup, Hlen. exact Hi. }
    specialize (Hlast c Hc).
    destruct (now - EthRegistry.DeleteAt c >? EthRegistry.Minute) eqn:E;
      [|reflexivity].
    apply Z.gtb_lt in E. lia.
  - apply lookup_ge_None in Hi. lia.
Qed.

(** ** Retransmitted SYNs *)

(** [init] leaves the identity of the flow and its callback alone. *)
Lemma init_body_identity env ipcfg c log :
  let c' := fst (fst (Flow.init_body env ipcfg (c, log))) in
  Flow.laddr c' = Flow.laddr c /\ Flow.raddr c' = Flow.raddr c /\
  Flow.isn c' = Flow.isn c /\ Flow.closeFn c' = Flow.closeFn c.
Proof.
  cbv zeta. unfold Flow.init_body.
  cbv [Flow.bind Flow.try Flow.check Flow.may_panic Flow.defer Flow.log Flow.get
       Flow.modify Flow.fail Flow.ret].
  cbn -[Z.mul].
  repeat match goal with
         | |- context [match ?x with _ => _ end] =>
           match type of x with
           | sum _ _ => destruct x
           | option _ => destruct x
           | outcome _ => destruct x
           | bool => destruct x
           end; cbn -[Z.mul]
         end; repeat split.
Qed.

Lemma ConnEth_init_raddr env ipcfg c :
  Flow.raddr (Flow.conn (Flow.ConnEth_init env ipcfg c)) = Flow.raddr c.
Proof.
  unfold Flow.ConnEth_init.
  pose proof (init_body_identity env ipcfg c []) as H. cbv zeta in H.
  destruct (Flow.init_body env ipcfg (c, [])) as [[c' l] [u|e|]]; simpl in *; tauto.
Qed.

(** Close notifications touch the retired queue only. *)
Lemma notify_conns now calls : forall l,
  EthRegistry.conns (EthRegistry.notify now l calls) = EthRegistry.conns l.
Proof.
  unfold EthRegistry.notify.
  induction calls as [|c calls IH]; intros l; simpl; [reflexivity|].
  rewrite IH. destruct c; reflexivity.
Qed.

Lemma notify_addr now calls : forall l,
  EthRegistry.addr (EthRegistry.notify now l calls) = EthRegistry.addr l.
Proof.
  unfold EthRegistry.notify.
  induction calls as [|c calls IH]; intros l; simpl; [reflexivity|].
  rewrite IH. destruct c; reflexivity.
Qed.

(** While the live set records [i] for the remote [r] and every SYN of
    [r] carries [i], an [Accept] that returns leaves the record in place
    and hands out no flow for [r]. *)
Section EthDedupe.
Variable sz : bool -> nat * nat.
Variable env : Flow.Env.
Variable ipcfg : Z.
Variable r : AddrPort.
Variable i : Z.
Variable a : AddrPort.

Lemma accept_loop_keeps_record reads : forall l ip,
  EthRegistry.addr l = a ->
  length ip = snd (sz (Is4 (AddrOf a))) ->
  EthRegistry.conns l !! r = Some i ->
  EthRegistry.syns_carry sz a r i reads ->
  forall l' res rest,
    EthRegistry.accept_loop sz env ipcfg l ip reads = (l', Returns res, rest) ->
    EthRegistry.addr l' = a /\
    EthRegistry.conns l' !! r = Some i /\
    (forall c, EthRegistry.flow res = Some c -> Flow.raddr c <> r) /\
    (forall x, In x rest -> In x reads).
Proof.
  induction reads as [|rd reads IH]; intros l ip Ha Hip Hl Hall l' res rest;
    cbn [EthRegistry.accept_loop]; [discriminate|].
  destruct rd as [e|pkt now].
  - intros [= <- <- <-]. simpl. repeat split; auto; discriminate.
  - pose proof (fill_length ip pkt) as Hlen.
    pose proof (Hall pkt now ip) as Hsyn.
    destruct (EthRegistry.fill ip pkt) as [ip' n]. cbn [fst snd] in *.
    destruct (n <? _)%nat.
    { intros [= <- <- <-]. simpl. repeat split; auto; discriminate. }
    pose proof (purgeDeleted_returns now l) as Hp.
    destruct (EthRegistry.purgeDeleted now l) as [l1 [|]]; [discriminate|].
    cbn [fst snd] in Hp. specialize (Hp eq_refl). subst l1.
    assert (Hrest : EthRegistry.syns_carry sz a r i reads).
    { intros p t b i' Hin Hb Hp. apply (Hall p t b i'); auto. right. exact Hin. }
    destruct (EthRegistry.parse ip' n) as [raddr isn| |] eqn:Hparse.
    + destruct (decide (raddr = r)) as [->|Hne].
      * rewrite Hl.
        assert (isn = i) as ->.
        { apply Hsyn; auto. left. reflexivity. }
        rewrite Z.eqb_refl. cbn [negb].
        intros Hrun. apply IH in Hrun; auto; try congruence.
        destruct Hrun as (? & ? & ? & Hsub). repeat split; auto.
        intros x Hx. right. auto.
      * set (fresh := match EthRegistry.conns l !! raddr with
                      | Some old => negb (old =? isn) | None => true end).
        destruct fresh.
        -- cbv zeta.
           destruct (Flow.result _) as [e| |] eqn:Hres; try discriminate.
           intros [= <- <- <-]. cbn [EthRegistry.flow].
           rewrite notify_conns, notify_addr. simpl.
           rewrite lookup_insert_ne by auto.
           repeat split; auto.
           intros c [= <-]. rewrite ConnEth_init_raddr. exact Hne.
        -- intros Hrun. apply IH in Hrun; auto; try congruence.
           destruct Hrun as (? & ? & ? & Hsub). repeat split; auto.
           intros x Hx. right. auto.
    + intros Hrun. apply IH in Hrun; auto; try congruence.
      destruct Hrun as (? & ? & ? & Hsub). repeat split; auto.
      intros x Hx. right. auto.
    + discriminate.
Qed.

Lemma serve_keeps_record fuel : forall l reads,
  EthRegistry.addr l = a ->
  EthRegistry.conns l !! r = Some i ->
  EthRegistry.syns_carry sz a r i reads ->
  Forall (fun c => Flow.raddr c <> r)
         (snd (EthRegistry.serve sz env ipcfg fuel l reads)).
Proof.
  induction fuel as [|fuel IH]; intros l reads Ha Hl Hall;
    [destruct reads; constructor|].
  destruct reads as [|rd reads]; [constructor|].
  cbn [EthRegistry.serve]. unfold EthRegistry.Accept.
  set (ip := replicate _ Byte.x00).
  assert (Hip : length ip = snd (sz (Is4 (AddrOf a)))).
  { subst ip. rewrite length_replicate, Ha. reflexivity. }
  pose proof (accept_loop_keeps_record (rd :: reads) l ip Ha Hip Hl Hall) as Hrun.
  destruct (EthRegistry.accept_loop sz env ipcfg l ip (rd :: reads))
    as [[l' out] rest].
  destruct out as [[fl e]| |]; try constructor.
  destruct (Hrun l' _ rest eq_refl) as (Ha' & Hl' & Hfl & Hsub).
  assert (Hrest : EthRegistry.syns_carry sz a r i rest).
  { intros p t b i' Hin Hb Hp. apply (Hall p t b i'); auto. }
  specialize (IH l' rest Ha' Hl' Hrest).
  destruct fl as [c|].
  - destruct (EthRegistry.serve sz env ipcfg fuel l' rest) as [l2 cs].
    cbn [snd] in *. constructor; [apply Hfl; reflexivity | exact IH].
  - exact IH.
Qed.
End EthDedupe.

(** The SYN of [Scenario.peer] with sequence number 1 is read as such in
    whatever the buffer held. *)
Lemma syn_parse_any_buffer (ip : list Byte.byte) r i' :
  length ip = 120%nat ->
  EthRegistry.parse (fst (EthRegistry.fill ip (Scenario.syn 1)))
                    (snd (EthRegistry.fill ip (Scenario.syn 1)))
    = EthRegistry.Syn r i' -> i' = 1.
Proof.
  intros Hlen.
  do 120 (destruct ip as [|? ip]; [discriminate Hlen|]).
  destruct ip; [|discriminate Hlen].
  vm_compute. intros [= _ <-]. reflexivity.
Qed.

(** [Listener.Accept]: a SYN whose identity is in the live set is passed
    over; the two read locks taken for the lookup stay held. *)
Lemma Listener_live_syn_continues sz env ipcfg tcpClose rawClose
      (L : TcpRegistry.Listener) ip pkt now rest raddr isn :
  (fst (sz (Is4 (AddrOf (TcpRegistry.addr L)))) <= snd (EthRegistry.fill ip pkt))%nat ->
  EthRegistry.parse (fst (EthRegistry.fill ip pkt)) (snd (EthRegistry.fill ip pkt))
    = EthRegistry.Syn raddr isn ->
  {| TcpRegistry.Local := TcpRegistry.addr L; TcpRegistry.Remote := raddr;
     TcpRegistry.ISN := isn |} ∈ TcpRegistry.conns L ->
  TcpRegistry.accept_loop sz env ipcfg tcpClose rawClose L ip
      (EthRegistry.ReadPkt pkt now :: rest) =
  TcpRegistry.accept_loop sz env ipcfg tcpClose rawClose
      (TcpRegistry.RLock (TcpRegistry.RLock L)) (fst (EthRegistry.fill ip pkt)) rest.
Proof.
  intros Hn Hp Hin. cbn [TcpRegistry.accept_loop].
  destruct (EthRegistry.fill ip pkt) as [ip' n]. cbn [fst snd] in *.
  apply Nat.ltb_ge in Hn. rewrite Hn, Hp.
  cbv zeta. cbn [TcpRegistry.RLock TcpRegistry.conns TcpRegistry.addr].
  rewrite bool_decide_eq_true_2 by exact Hin. reflexivity.
Qed.

(** C1, the statement as it is written fails for [listenerEth]: the live
    set keeps one sequence number per remote, so a SYN of the same remote
    with another sequence number in between makes the first identity new
    again.  Three flows are accepted, two of them for (peer, 1), and no
    flow was closed. *)
Lemma two_flows_for_one_identity :
  let reads := [EthRegistry.ReadPkt (Scenario.syn 1) Scenario.second;
                EthRegistry.ReadPkt (Scenario.syn 2) (2 * Scenario.second);
                EthRegistry.ReadPkt (Scenario.syn 1) (3 * Scenario.second)] in
  let run := EthRegistry.serve Header.syn_sizes Flow.env_ok 0 3
               (EthRegistry.ListenEth Scenario.local) reads in
  map (fun c => (Flow.raddr c, Flow.isn c)) (snd run) =
    [(Scenario.peer, 1); (Scenario.peer, 2); (Scenario.peer, 1)] /\
  EthRegistry.closedConns (fst run) = [].
Proof. split; vm_compute; reflexivity. Qed.

(** C1 as the code has it.  [listenerEth.Accept] records one sequence
    number per remote: while the live set records [i] for [r] and every SYN
    read from [r] carries [i], the calls of [Accept] hand out no flow for
    [r], each such SYN being passed over.  [Listener.Accept] keeps whole
    identities: a SYN whose identity is in the live set is passed over and
    the loop goes on with the next read. *)
Theorem recorded_syn_is_discarded
        (sizes : bool -> nat * nat) (env : Flow.Env) (ipcfg : Z)
        (l : EthRegistry.listenerEth) (r : AddrPort) (i : Z)
        (reads : list EthRegistry.read) (fuel : nat) :
  EthRegistry.conns l !! r = Some i ->
  EthRegistry.syns_carry sizes (EthRegistry.addr l) r i reads ->
  Forall (fun c => Flow.raddr c <> r)
         (snd (EthRegistry.serve sizes env ipcfg fuel l reads)) /\
  (forall tcpClose rawClose (L : TcpRegistry.Listener) ip pkt now rest raddr isn,
     (fst (sizes (Is4 (AddrOf (TcpRegistry.addr L)))) <=
      snd (EthRegistry.fill ip pkt))%nat ->
     EthRegistry.parse (fst (EthRegistry.fill ip pkt)) (snd (EthRegistry.fill ip pkt))
       = EthRegistry.Syn raddr isn ->
     {| TcpRegistry.Local := TcpRegistry.addr L; TcpRegistry.Remote := raddr;
        TcpRegistry.ISN := isn |} ∈ TcpRegistry.conns L ->
     TcpRegistry.accept_loop sizes env ipcfg tcpClose rawClose L ip
         (EthRegistry.ReadPkt pkt now :: rest) =
     TcpRegistry.accept_loop sizes env ipcfg tcpClose rawClose
         (TcpRegistry.RLock (TcpRegistry.RLock L)) (fst (EthRegistry.fill ip pkt)) rest).
Proof.
  intros Hlive Hsame. split.
  - apply serve_keeps_record with (i := i) (a := EthRegistry.addr l); auto.
  - intros tcpClose rawClose L ip pkt now rest raddr isn Hn Hp Hin.
    apply (Listener_live_syn_continues _ _ _ _ _ _ _ _ _ _ raddr isn Hn Hp Hin).
Qed.

(** C1 at work: the SYN (peer, 1) read twice by a listener that has it
    recorded. *)
Lemma recorded_syn_is_discarded_witness :
  let l := EthRegistry.set_conns {[ Scenario.peer := 1 ]}
             (EthRegistry.ListenEth Scenario.local) in
  let L := TcpRegistry.set_conns
             {[ {| TcpRegistry.Local := Scenario.local;
                   TcpRegistry.Remote := Scenario.peer; TcpRegistry.ISN := 1 |} ]}
             (TcpRegistry.Listen Scenario.local) in
  let ip := replicate 120 Byte.x00 in
  Forall (fun c => Flow.raddr c <> Scenario.peer)
         (snd (EthRegistry.serve Header.syn_sizes Flow.env_ok 0 2 l
                 [EthRegistry.ReadPkt (Scenario.syn 1) (2 * Scenario.second);
                  EthRegistry.ReadPkt (Scenario.syn 1) (3 * Scenario.second)])) /\
  TcpRegistry.accept_loop Header.syn_sizes Flow.env_ok 0 None None L ip
      [EthRegistry.ReadPkt (Scenario.syn 1) (2 * Scenario.second)] =
  TcpRegistry.accept_loop Header.syn_sizes Flow.env_ok 0 None None
      (TcpRegistry.RLock (TcpRegistry.RLock L))
      (fst (EthRegistry.fill ip (Scenario.syn 1))) [].
Proof.
  intros l L ip.
  assert (Hlive : EthRegistry.conns l !! Scenario.peer = Some 1).
  { apply lookup_singleton_eq. }
  assert (Hsame : EthRegistry.syns_carry Header.syn_sizes (EthRegistry.addr l)
                    Scenario.peer 1
                    [EthRegistry.ReadPkt (Scenario.syn 1) (2 * Scenario.second);
                     EthRegistry.ReadPkt (Scenario.syn 1) (3 * Scenario.second)]).
  { intros pkt now b i' [[= <- <-]|[[= <- <-]|[]]] Hb;
      apply syn_parse_any_buffer; exact Hb. }
  destruct (recorded_syn_is_discarded Header.syn_sizes Flow.env_ok 0 l Scenario.peer 1
              _ 2 Hlive Hsame) as [Heth Htcp].
  split; [exact Heth|].
  apply (Htcp None None L ip (Scenario.syn 1) (2 * Scenario.second) [] Scenario.peer 1).
  - apply Nat.leb_le. vm_compute. reflexivity.
  - vm_compute. reflexivity.
  - subst L. cbn [TcpRegistry.conns TcpRegistry.set_conns TcpRegistry.addr
                  TcpRegistry.Listen].
    apply elem_of_singleton_2. reflexivity.
Defined.

(** ** The minute after a close *)

(** The queue after a close notification holds what it held and the new
    entry, whatever the sort made of it. *)
Lemma deleteConn_In l raddr isn now c :
  In c (EthRegistry.closedConns (EthRegistry.deleteConn l raddr isn now)) ->
  In c (EthRegistry.closedConns l) \/
  c = {| EthRegistry.DeleteAt := now; EthRegistry.Raddr := raddr;
         EthRegistry.ISN := isn |}.
Proof.
  intros Hin. apply list_elem_of_In in Hin.
  unfold EthRegistry.deleteConn in Hin. simpl in Hin.
  rewrite Slice_perm in Hin. apply elem_of_app in Hin as [H|H].
  - left. apply list_elem_of_In. exact H.
  - right. apply list_elem_of_singleton in H. exact H.
Qed.

(** [listenerEth]: the prune pass reads the entry just queued, and within
    the minute of it leaves the listener alone. *)
Lemma purgeDeleted_after_close l r i t0 now :
  now - t0 <= EthRegistry.Minute ->
  EthRegistry.purgeDeleted now (EthRegistry.deleteConn l r i t0) =
    (EthRegistry.deleteConn l r i t0, false).
Proof.
  intros Hnew. apply purgeDeleted_fresh. intros c.
  rewrite deleteConn_appends, last_snoc. intros [= <-]. exact Hnew.
Qed.

(** [listenerEth]: a SYN of the identity just closed, read within the
    minute, is passed over. *)
Lemma eth_retired_syn_discarded sizes env ipcfg l r i t0 ip pkt now rest :
  EthRegistry.conns l !! r = Some i ->
  now - t0 <= EthRegistry.Minute ->
  (fst (sizes (Is4 (AddrOf (EthRegistry.addr l)))) <= snd (EthRegistry.fill ip pkt))%nat ->
  EthRegistry.parse (fst (EthRegistry.fill ip pkt)) (snd (EthRegistry.fill ip pkt))
    = EthRegistry.Syn r i ->
  EthRegistry.accept_loop sizes env ipcfg (EthRegistry.deleteConn l r i t0) ip
      (EthRegistry.ReadPkt pkt now :: rest) =
  EthRegistry.accept_loop sizes env ipcfg (EthRegistry.deleteConn l r i t0)
      (fst (EthRegistry.fill ip pkt)) rest.
Proof.
  intros Hlive Hnew Hn Hp. cbn [EthRegistry.accept_loop].
  destruct (EthRegistry.fill ip pkt) as [ip' n]. cbn [fst snd] in *.
  apply Nat.ltb_ge in Hn.
  change (EthRegistry.addr (EthRegistry.deleteConn l r i t0)) with (EthRegistry.addr l).
  rewrite Hn.
  rewrite (purgeDeleted_after_close l r i t0 now Hnew).
  rewrite Hp.
  change (EthRegistry.conns (EthRegistry.deleteConn l r i t0))
    with (EthRegistry.conns l).
  rewrite Hlive, Z.eqb_refl. reflexivity.
Qed.

(** The timer callbacks that run delete their own identities only. *)
Lemma fold_difference_keeps (id : TcpRegistry.ID) (due : list (Z * TcpRegistry.ID)) :
  forall s : gset TcpRegistry.ID,
  id ∈ s -> (forall t, In t due -> snd t <> id) ->
  id ∈ fold_left (fun s t => s ∖ {[snd t]}) due s.
Proof.
  induction due as [|t due IH]; intros s Hin Hne; simpl; [exact Hin|].
  apply IH.
  - apply elem_of_difference. split; [exact Hin|].
    intros H. apply elem_of_singleton in H. apply (Hne t); [left; reflexivity|].
    symmetry. exact H.
  - intros t' Ht'. apply Hne. right. exact Ht'.
Qed.

(** The timer callbacks add nothing to the live set. *)
Lemma fold_difference_subset (id : TcpRegistry.ID) (due : list (Z * TcpRegistry.ID)) :
  forall s : gset TcpRegistry.ID,
  id ∈ fold_left (fun s t => s ∖ {[snd t]}) due s -> id ∈ s.
Proof.
  induction due as [|t due IH]; intros s Hin; simpl in Hin; [exact Hin|].
  apply IH in Hin. apply elem_of_difference in Hin as [Hin _]. exact Hin.
Qed.

(** [Listener]: the close sets a timer a minute ahead, and until a timer
    set for the identity is due the timers change nothing about the
    identity in the live set. *)
Lemma Listener_retired_stays (L : TcpRegistry.Listener) id t0 now :
  now < t0 + TcpRegistry.Minute ->
  (forall t, In (t, id) (TcpRegistry.timers L) -> now < t) ->
  In (t0 + TcpRegistry.Minute, id)
     (TcpRegistry.timers (TcpRegistry.deleteConn L id t0)) /\
  (id ∈ TcpRegistry.conns (TcpRegistry.fire now (TcpRegistry.deleteConn L id t0)) <->
   id ∈ TcpRegistry.conns L).
Proof.
  intros Hnew Hold. split.
  - simpl. apply in_or_app. right. left. reflexivity.
  - unfold TcpRegistry.fire.
    destruct (TcpRegistry.can_Lock _); [|reflexivity].
    cbn [TcpRegistry.conns TcpRegistry.set_conns TcpRegistry.set_timers
         TcpRegistry.deleteConn TcpRegistry.timers].
    split; [apply fold_difference_subset|]. intros Hin.
    apply fold_difference_keeps; [exact Hin|].
    intros [t id'] Ht Heq. simpl in Heq. subst id'.
    apply list_elem_of_In, list_elem_of_filter in Ht as [Hdue Ht]. simpl in Hdue.
    apply bool_decide_unpack in Hdue.
    apply elem_of_app in Ht as [Ht|Ht].
    + apply list_elem_of_In, Hold in Ht. lia.
    + apply list_elem_of_singleton in Ht. injection Ht as ->. lia.
Qed.

(** C4, the statement as it is written fails for [listenerEth]: the flow
    (peer, 1) is accepted at 1 s and closed at 2 s; a SYN (peer, 2) read at
    3 s takes over the record of the remote, and the SYN (peer, 1) read at
    4 s is accepted again, within the minute and with nothing pruned. *)
Lemma retired_identity_accepted_within_the_minute :
  let s := Scenario.second in
  let c1 := Flow.conn (Flow.ConnEth_init Flow.env_ok 0
                         (Flow.newConnect Scenario.local Scenario.peer 1 true)) in
  let run1 := EthRegistry.serve Header.syn_sizes Flow.env_ok 0 1
                (EthRegistry.ListenEth Scenario.local)
                [EthRegistry.ReadPkt (Scenario.syn 1) s] in
  let l1 := EthRegistry.Close (fst run1) c1 (2 * s) in
  let run2 := EthRegistry.serve Header.syn_sizes Flow.env_ok 0 2 l1
                [EthRegistry.ReadPkt (Scenario.syn 2) (3 * s);
                 EthRegistry.ReadPkt (Scenario.syn 1) (4 * s)] in
  snd run1 = [c1] /\
  EthRegistry.closedConns l1 =
    [{| EthRegistry.DeleteAt := 2 * s; EthRegistry.Raddr := Scenario.peer;
        EthRegistry.ISN := 1 |}] /\
  map (fun c => (Flow.raddr c, Flow.isn c)) (snd run2) =
    [(Scenario.peer, 2); (Scenario.peer, 1)] /\
  EthRegistry.closedConns (fst run2) = EthRegistry.closedConns l1 /\
  4 * s - 2 * s <= EthRegistry.Minute.
Proof. repeat split; vm_compute; first [reflexivity | discriminate]. Qed.

(** C4 as the code has it.  Closing a flow of identity (r, i) leaves the
    identity in the live set.  [listenerEth]: the close is queued last,
    with its time; a prune pass run within the minute of it changes
    nothing, and a SYN for (r, i) read within that minute, while the live
    set still records [i] for [r], is passed over.  [Listener]: the close
    sets a timer one minute ahead, and until a timer set for the identity
    is due the identity is in the live set exactly if it was there at the
    close. *)
Theorem retired_syn_within_grace_is_discarded
        (sizes : bool -> nat * nat) (env : Flow.Env) (ipcfg : Z)
        (l : EthRegistry.listenerEth) (r : AddrPort) (i t0 now : Z)
        (ip pkt : list byte) (rest : list EthRegistry.read)
        (L : TcpRegistry.Listener) (id : TcpRegistry.ID) :
  EthRegistry.conns l !! r = Some i ->
  now - t0 <= EthRegistry.Minute ->
  (fst (sizes (Is4 (AddrOf (EthRegistry.addr l)))) <= snd (EthRegistry.fill ip pkt))%nat ->
  EthRegistry.parse (fst (EthRegistry.fill ip pkt)) (snd (EthRegistry.fill ip pkt))
    = EthRegistry.Syn r i ->
  now < t0 + TcpRegistry.Minute ->
  (forall t, In (t, id) (TcpRegistry.timers L) -> now < t) ->
  (EthRegistry.conns (EthRegistry.deleteConn l r i t0) !! r = Some i /\
   EthRegistry.closedConns (EthRegistry.deleteConn l r i t0) =
     EthRegistry.closedConns l ++
       [{| EthRegistry.DeleteAt := t0; EthRegistry.Raddr := r; EthRegistry.ISN := i |}] /\
   EthRegistry.purgeDeleted now (EthRegistry.deleteConn l r i t0) =
     (EthRegistry.deleteConn l r i t0, false) /\
   EthRegistry.accept_loop sizes env ipcfg (EthRegistry.deleteConn l r i t0) ip
       (EthRegistry.ReadPkt pkt now :: rest) =
   EthRegistry.accept_loop sizes env ipcfg (EthRegistry.deleteConn l r i t0)
       (fst (EthRegistry.fill ip pkt)) rest) /\
  (In (t0 + TcpRegistry.Minute, id)
      (TcpRegistry.timers (TcpRegistry.deleteConn L id t0)) /\
   (id ∈ TcpRegistry.conns (TcpRegistry.fire now (TcpRegistry.deleteConn L id t0)) <->
    id ∈ TcpRegistry.conns L)).
Proof.
  intros Hlive Hnew Hn Hp Hdue Htimers. split; [split; [|split; [|split]]|].
  - exact Hlive.
  - apply deleteConn_appends.
  - apply purgeDeleted_after_close. exact Hnew.
  - apply eth_retired_syn_discarded; assumption.
  - apply Listener_retired_stays; assumption.
Qed.

(** C4 at work: a listener that retired (peer, 9) at 0 s closes the flow
    (peer, 1) at 62 s and reads its SYN again at 64 s, the older entry
    being past its minute by then. *)
Lemma retired_syn_within_grace_is_discarded_witness :
  let s := Scenario.second in
  let old := {| EthRegistry.DeleteAt := 0; EthRegistry.Raddr := Scenario.peer;
                EthRegistry.ISN := 9 |} in
  let l := EthRegistry.set_closedConns [old]
             (EthRegistry.set_conns {[ Scenario.peer := 1 ]}
                (EthRegistry.ListenEth Scenario.local)) in
  let id := {| TcpRegistry.Local := Scenario.local;
               TcpRegistry.Remote := Scenario.peer; TcpRegistry.ISN := 1 |} in
  let L := TcpRegistry.Listen Scenario.local in
  let ip := replicate 120 Byte.x00 in
  (EthRegistry.conns (EthRegistry.deleteConn l Scenario.peer 1 (62 * s)) !! Scenario.peer
     = Some 1 /\
   EthRegistry.closedConns (EthRegistry.deleteConn l Scenario.peer 1 (62 * s)) =
     [old; {| EthRegistry.DeleteAt := 62 * s; EthRegistry.Raddr := Scenario.peer;
              EthRegistry.ISN := 1 |}] /\
   EthRegistry.purgeDeleted (64 * s) (EthRegistry.deleteConn l Scenario.peer 1 (62 * s)) =
     (EthRegistry.deleteConn l Scenario.peer 1 (62 * s), false) /\
   EthRegistry.accept_loop Header.syn_sizes Flow.env_ok 0
       (EthRegistry.deleteConn l Scenario.peer 1 (62 * s)) ip
       [EthRegistry.ReadPkt (Scenario.syn 1) (64 * s)] =
   EthRegistry.accept_loop Header.syn_sizes Flow.env_ok 0
       (EthRegistry.deleteConn l Scenario.peer 1 (62 * s))
       (fst (EthRegistry.fill ip (Scenario.syn 1))) []) /\
  (In (62 * s + TcpRegistry.Minute, id)
      (TcpRegistry.timers (TcpRegistry.deleteConn L id (62 * s))) /\
   (id ∈ TcpRegistry.conns (TcpRegistry.fire (64 * s) (TcpRegistry.deleteConn L id (62 * s))) <->
    id ∈ TcpRegistry.conns L)).
Proof.
  intros s old l id L ip.
  apply (retired_syn_within_grace_is_discarded Header.syn_sizes Flow.env_ok 0
           l Scenario.peer 1 (62 * s) (64 * s) ip (Scenario.syn 1) [] L id).
  - apply lookup_singleton_eq.
  - vm_compute. discriminate.
  - apply Nat.leb_le. vm_compute. reflexivity.
  - vm_compute. reflexivity.
  - vm_compute. reflexivity.
  - intros t [].
Defined.

(** ** Header stamping: round trip and checksums *)

(** A byte written is the value modulo 256. *)
Lemma byteZ_Zbyte_mod z : byteZ (Zbyte z) = z mod 256.
Proof.
  unfold Zbyte.
  pose proof (Z.mod_pos_bound z 256 ltac:(lia)) as Hr.
  destruct (Byte.of_N (Z.to_N (z mod 256))) as [b|] eqn:E.
  - apply Byte.to_of_N in E. unfold byteZ. rewrite E. lia.
  - apply Byte.of_N_None_iff in E. lia.
Qed.






Lemma length_be_bytes k : forall z, length (Header.be_bytes k z) = k.
Proof.
  induction k as [|k IH]; intros z; simpl; [reflexivity|].
  rewrite length_app, IH. simpl. lia.
Qed.

Lemma be_value_snoc bs b :
  IPStack.be_value (bs ++ [b]) = IPStack.be_value bs * 256 + byteZ b.
Proof. unfold IPStack.be_value. rewrite fold_left_app. reflexivity. Qed.

Lemma be_value_be_bytes k : forall z,
  IPStack.be_value (Header.be_bytes k z) = z mod 256 ^ Z.of_nat k.
Proof.
  induction k as [|k IH]; intros z.
  - simpl. rewrite Z.mod_1_r. reflexivity.
  - cbn [Header.be_bytes]. rewrite be_value_snoc, IH, byteZ_Zbyte_mod.
    rewrite Nat2Z.inj_succ, Z.pow_succ_r by lia.
    rewrite (Z.rem_mul_r z 256 (256 ^ Z.of_nat k)) by lia. lia.
Qed.

Lemma be_value_range bs : 0 <= IPStack.be_value bs < 256 ^ Z.of_nat (length bs).
Proof.
  induction bs as [|b bs IH] using rev_ind.
  - simpl. unfold IPStack.be_value. simpl. lia.
  - rewrite be_value_snoc, length_app. simpl length.
    replace (Z.of_nat (length bs + 1)) with (Z.succ (Z.of_nat (length bs))) by lia.
    rewrite Z.pow_succ_r by lia.
    pose proof (byteZ_range b). lia.
Qed.



Lemma put_self off buf :
  (off + 2 <= length buf)%nat ->
  IPStack.put off (take 2 (drop off buf)) buf = buf.
Proof.
  intros Hl. unfold IPStack.put.
  rewrite length_take, length_drop, Nat.min_l by lia.
  rewrite <- drop_drop, take_drop, take_drop. reflexivity.
Qed.





Lemma mod_65535_eq a b : (a - b) mod 65535 = 0 -> a mod 65535 = b mod 65535.
Proof.
  intros H. apply Z.mod_divide in H; [|lia]. destruct H as [k Hk].
  replace a with (b + k * 65535) by lia. apply Z.mod_add. lia.
Qed.






Lemma be_value_be_bytes_small k z :
  0 <= z < 256 ^ Z.of_nat k -> IPStack.be_value (Header.be_bytes k z) = z.
Proof. intros Hz. rewrite be_value_be_bytes. apply Z.mod_small. exact Hz. Qed.




(** * Further properties of the sources *)

(** ** The two filter programs, packet by packet *)

(** Without the SYN bit the masked flags are zero. *)
Lemma land_syn_clear (flags : Z) :
  Z.testbit flags 1 = false -> Z.land flags 2 = 0.
Proof.
  intros Hbit. apply Z.bits_inj'. intros n Hn.
  rewrite Z.land_spec, Z.bits_0.
  destruct (Z.eq_dec n 1) as [->|Hne].
  - rewrite Hbit. reflexivity.
  - replace (Z.testbit 2 n) with false; [apply andb_false_r|].
    symmetry. change 2 with (2 ^ 1). apply Z.pow2_bits_false. lia.
Qed.

(** The part of the listener's filter behind the prologue, whatever the
    prologue left in X. *)
Lemma filter_syn_tail_exact (port : Z) (pkt : list byte) (A X : Z) (fuel : nat) :
  Bpf.exec (6 + fuel) (Bpf.FilterDstPortAndSynFlag port) pkt 6 A X =
  match Bpf.load pkt (X + 2) 2 with
  | Some p =>
    if p =? port then
      match Bpf.load pkt (X + 13) 1 with
      | Some f => if Z.testbit f 1 then 65535 else 0
      | None => 0
      end
    else 0
  | None => 0
  end.
Proof.
  change (6 + fuel)%nat with (S (S (S (S (S (S fuel)))))).
  bpf_step. unfold Bpf.TCPDstPortOffset.
  destruct (Bpf.load pkt (X + 2) 2) as [p|]; [|reflexivity].
  bpf_step. unfold Bpf.test.
  destruct (p =? port); cbn [Nat.add].
  - bpf_step. unfold Bpf.TCPFlagsOffset.
    destruct (Bpf.load pkt (X + 13) 1) as [f|] eqn:Hf; [|reflexivity].
    bpf_step. unfold Bpf.alu, Bpf.TCPFlagSyn.
    destruct (Z.testbit f 1) eqn:Hbit.
    + pose proof (land_syn_bit f Hbit (load_one_range _ _ _ Hf)) as Hl.
      unfold Bpf.TCPFlagSyn in Hl. rewrite Hl. change (Bpf.wrap32 2) with 2.
      bpf_step. unfold Bpf.test. change (2 =? 2) with true. cbv iota. cbn [Nat.add].
      bpf_step. reflexivity.
    + rewrite (land_syn_clear f Hbit). change (Bpf.wrap32 0) with 0.
      bpf_step. unfold Bpf.test. change (0 =? 2) with false. cbv iota. cbn [Nat.add].
      bpf_step. reflexivity.
  - bpf_step. reflexivity.
Qed.

(** The prologue [ipHeaderLen] in front of any program: what it leaves in
    the registers when control reaches the seventh instruction. *)
Lemma ipHeaderLen_prologue (tail : list Bpf.Instruction) (b : byte) (rest : list byte)
      (fuel : nat) :
  Bpf.exec (5 + fuel) (Bpf.ipHeaderLen ++ tail) (b :: rest) 0 0 0 =
  let v := Z.shiftr (byteZ b) 4 in
  if v =? 4 then
    Bpf.exec fuel (Bpf.ipHeaderLen ++ tail) (b :: rest) 6 4 (4 * Z.land (byteZ b) 15)
  else if v =? 6 then
    Bpf.exec fuel (Bpf.ipHeaderLen ++ tail) (b :: rest) 6 6 40
  else
    Bpf.exec (S fuel) (Bpf.ipHeaderLen ++ tail) (b :: rest) 6 v 0.
Proof.
  cbv zeta.
  pose proof (version_nibble_range b) as Hv.
  pose proof (load_head b rest) as Hh.
  change (5 + fuel)%nat with (S (S (S (S (S fuel))))).
  bpf_step. rewrite Hh.
  bpf_step. unfold Bpf.alu. rewrite (wrap32_small _ Hv).
  bpf_step. unfold Bpf.test.
  destruct (Z.shiftr (byteZ b) 4 =? 4) eqn:E4.
  - apply Z.eqb_eq in E4. rewrite E4. cbn [negb Nat.add].
    bpf_step. rewrite Hh.
    bpf_step. change (Bpf.test Bpf.JumpNotEqual 4 6) with true. cbv iota. cbn [Nat.add].
    reflexivity.
  - cbn [negb Nat.add].
    bpf_step. unfold Bpf.test.
    destruct (Z.shiftr (byteZ b) 4 =? 6) eqn:E6.
    + apply Z.eqb_eq in E6. rewrite E6. cbn [negb Nat.add].
      bpf_step. change (Bpf.wrap32 40) with 40. reflexivity.
    + cbn [negb Nat.add]. reflexivity.
Qed.

(** X1: on an IPv4 or IPv6 packet the listener's filter returns 0xffff
    exactly when the transport destination port is [port] and the SYN bit
    of the flags byte is set, and 0 otherwise: another port, a segment
    without SYN and a packet too short for either field are all dropped.
    The IPv4 header length is taken from the IHL nibble. *)
Theorem FilterDstPortAndSynFlag_exact (port : Z) (pkt : list byte) (v : Z) :
  Bpf.ipVersion pkt = Some v -> v = 4 \/ v = 6 ->
  Bpf.run (Bpf.FilterDstPortAndSynFlag port) pkt =
  match Bpf.dstPort pkt with
  | Some p =>
    if p =? port then
      match Bpf.tcpFlags pkt with
      | Some f => if Z.testbit f 1 then 65535 else 0
      | None => 0
      end
    else 0
  | None => 0
  end.
Proof.
  intros Hv Hfam. destruct pkt as [|b rest]; [discriminate|].
  injection Hv as Hv.
  unfold Bpf.run. change (length (Bpf.FilterDstPortAndSynFlag port)) with (5 + 9)%nat.
  pose proof (ipHeaderLen_prologue
                (skipn 6 (Bpf.FilterDstPortAndSynFlag port)) b rest 9) as Hp.
  change (Bpf.ipHeaderLen ++ skipn 6 (Bpf.FilterDstPortAndSynFlag port))
    with (Bpf.FilterDstPortAndSynFlag port) in Hp.
  rewrite Hp. cbv zeta. rewrite Hv.
  unfold Bpf.dstPort, Bpf.tcpFlags, Bpf.transportOffset,
    Bpf.TCPDstPortOffset, Bpf.TCPFlagsOffset.
  rewrite Hv.
  destruct Hfam as [-> | ->].
  - change (4 =? 4) with true. cbv iota. cbn [mbind option_bind].
    apply (filter_syn_tail_exact port (b :: rest) 4 _ 3).
  - change (6 =? 4) with false. change (6 =? 6) with true. cbv iota.
    cbn [mbind option_bind].
    apply (filter_syn_tail_exact port (b :: rest) 6 40 3).
Qed.

(** X2: the prologue does not drop a packet whose version nibble is
    neither 4 nor 6; X stays 0 and the filter reads the port at offset 2
    and the flags at offset 13 of the packet itself, accepting it when
    they fit. *)
Theorem FilterDstPortAndSynFlag_other_version (port : Z) (pkt : list byte) (v flags : Z) :
  Bpf.ipVersion pkt = Some v -> v <> 4 -> v <> 6 ->
  Bpf.load pkt 2 2 = Some port ->
  Bpf.load pkt 13 1 = Some flags ->
  Z.testbit flags 1 = true ->
  Bpf.run (Bpf.FilterDstPortAndSynFlag port) pkt = 65535.
Proof.
  intros Hv H4 H6 Hport Hflags Hsyn. destruct pkt as [|b rest]; [discriminate|].
  injection Hv as Hv.
  unfold Bpf.run. change (length (Bpf.FilterDstPortAndSynFlag port)) with (5 + 9)%nat.
  pose proof (ipHeaderLen_prologue
                (skipn 6 (Bpf.FilterDstPortAndSynFlag port)) b rest 9) as Hp.
  change (Bpf.ipHeaderLen ++ skipn 6 (Bpf.FilterDstPortAndSynFlag port))
    with (Bpf.FilterDstPortAndSynFlag port) in Hp.
  rewrite Hp. cbv zeta. rewrite Hv.
  destruct (v =? 4) eqn:E4; [apply Z.eqb_eq in E4; contradiction|].
  destruct (v =? 6) eqn:E6; [apply Z.eqb_eq in E6; contradiction|].
  etransitivity; [apply (filter_syn_tail_exact port (b :: rest) v 0 4)|].
  change (0 + 2) with 2. change (0 + 13) with 13.
  rewrite Hport, Z.eqb_refl, Hflags, Hsyn. reflexivity.
Qed.

(** The part of the flow filter behind the prologue. *)
Lemma filter_ports_tail_exact (sp dp : Z) (pkt : list byte) (A X : Z) (fuel : nat) :
  Bpf.exec (5 + fuel) (Bpf.FilterSrcPortAndDstPort sp dp) pkt 6 A X =
  match Bpf.load pkt X 2 with
  | Some p =>
    if p =? sp then
      match Bpf.load pkt (X + 2) 2 with
      | Some q => if q =? dp then 65535 else 0
      | None => 0
      end
    else 0
  | None => 0
  end.
Proof.
  change (5 + fuel)%nat with (S (S (S (S (S fuel))))).
  bpf_step. rewrite Z.add_0_r.
  destruct (Bpf.load pkt X 2) as [p|]; [|reflexivity].
  bpf_step. unfold Bpf.test.
  destruct (p =? sp); cbn [Nat.add].
  - bpf_step.
    destruct (Bpf.load pkt (X + 2) 2) as [q|]; [|reflexivity].
    bpf_step. unfold Bpf.test.
    destruct (q =? dp); cbn [Nat.add]; bpf_step; reflexivity.
  - bpf_step. reflexivity.
Qed.

(** X3: on an IPv4 or IPv6 packet [FilterSrcPortAndDstPort] returns 0xffff
    exactly when both transport ports are the ones given, and 0
    otherwise. *)
Theorem FilterSrcPortAndDstPort_exact (sp dp : Z) (pkt : list byte) (v : Z) :
  Bpf.ipVersion pkt = Some v -> v = 4 \/ v = 6 ->
  Bpf.run (Bpf.FilterSrcPortAndDstPort sp dp) pkt =
  match Bpf.srcPort pkt with
  | Some p =>
    if p =? sp then
      match Bpf.dstPort pkt with
      | Some q => if q =? dp then 65535 else 0
      | None => 0
      end
    else 0
  | None => 0
  end.
Proof.
  intros Hv Hfam. destruct pkt as [|b rest]; [discriminate|].
  injection Hv as Hv.
  unfold Bpf.run. change (length (Bpf.FilterSrcPortAndDstPort sp dp)) with (5 + 8)%nat.
  pose proof (ipHeaderLen_prologue
                (skipn 6 (Bpf.FilterSrcPortAndDstPort sp dp)) b rest 8) as Hp.
  change (Bpf.ipHeaderLen ++ skipn 6 (Bpf.FilterSrcPortAndDstPort sp dp))
    with (Bpf.FilterSrcPortAndDstPort sp dp) in Hp.
  rewrite Hp. cbv zeta. rewrite Hv.
  unfold Bpf.srcPort, Bpf.dstPort, Bpf.transportOffset, Bpf.TCPDstPortOffset.
  rewrite Hv.
  destruct Hfam as [-> | ->].
  - change (4 =? 4) with true. cbv iota. cbn [mbind option_bind].
    apply (filter_ports_tail_exact sp dp (b :: rest) 4 _ 3).
  - change (6 =? 4) with false. change (6 =? 6) with true. cbv iota.
    cbn [mbind option_bind].
    apply (filter_ports_tail_exact sp dp (b :: rest) 6 40 3).
Qed.

(** X1 at work: the SYN-ACK to port 8080 is dropped by the filter for
    port 8081 and kept by the one for 8080. *)
Lemma FilterDstPortAndSynFlag_exact_witness :
  Bpf.run (Bpf.FilterDstPortAndSynFlag 8081) Bpf.synack_packet = 0 /\
  Bpf.run (Bpf.FilterDstPortAndSynFlag 8080) Bpf.synack_packet = 65535.
Proof.
  split.
  - exact (eq_trans (FilterDstPortAndSynFlag_exact 8081 Bpf.synack_packet 4
                       eq_refl (or_introl eq_refl)) eq_refl).
  - exact (eq_trans (FilterDstPortAndSynFlag_exact 8080 Bpf.synack_packet 4
                       eq_refl (or_introl eq_refl)) eq_refl).
Defined.

(** X2 at work: fourteen bytes that are no IP packet (version nibble 0)
    with 8080 at offset 2 and 0x02 at offset 13. *)
Lemma FilterDstPortAndSynFlag_other_version_witness :
  Bpf.run (Bpf.FilterDstPortAndSynFlag 8080)
          (map Zbyte [0; 0; 31; 144; 0; 0; 0; 0; 0; 0; 0; 0; 0; 2]) = 65535.
Proof.
  apply (FilterDstPortAndSynFlag_other_version 8080 _ 0 2); try reflexivity;
    discriminate.
Defined.

(** X3 at work: the SYN-ACK from port 443 to port 8080. *)
Lemma FilterSrcPortAndDstPort_exact_witness :
  Bpf.run (Bpf.FilterSrcPortAndDstPort 443 8080) Bpf.synack_packet = 65535 /\
  Bpf.run (Bpf.FilterSrcPortAndDstPort 444 8080) Bpf.synack_packet = 0.
Proof.
  split.
  - exact (eq_trans (FilterSrcPortAndDstPort_exact 443 8080 Bpf.synack_packet 4
                       eq_refl (or_introl eq_refl)) eq_refl).
  - exact (eq_trans (FilterSrcPortAndDstPort_exact 444 8080 Bpf.synack_packet 4
                       eq_refl (or_introl eq_refl)) eq_refl).
Defined.

(** ** The two registries beyond the claims *)

(** The prune pass panics exactly when the last entry of the queue is
    older than a minute. *)
Lemma purgeDeleted_panics_iff now l :
  snd (EthRegistry.purgeDeleted now l) = true <->
  exists c, last (EthRegistry.closedConns l) = Some c /\
            EthRegistry.Minute < now - EthRegistry.DeleteAt c.
Proof.
  unfold EthRegistry.purgeDeleted. rewrite last_lookup.
  destruct (length (EthRegistry.closedConns l)) as [|i] eqn:Hlen.
  - simpl. split; [discriminate|].
    intros (c & Hc & _). apply length_zero_iff_nil in Hlen. rewrite Hlen in Hc.
    discriminate.
  - cbn [pred EthRegistry.purge_from].
    destruct (EthRegistry.closedConns l !! i) as [c|] eqn:Hi.
    + destruct (now - EthRegistry.DeleteAt c >? EthRegistry.Minute) eqn:E.
      * apply Z.gtb_lt in E. split; [intros _; eauto|]. intros _.
        destruct i as [|k]; [reflexivity|].
        cbn [EthRegistry.purge_from].
        match goal with
        | |- context [EthRegistry.closedConns ?l' !! k] =>
          replace (EthRegistry.closedConns l' !! k) with (@None EthRegistry.closedTCPInfo)
        end; [reflexivity|].
        symmetry. simpl. apply lookup_take_ge. lia.
      * simpl. split; [discriminate|]. intros (c' & [= <-] & Hc).
        apply Z.gtb_lt in Hc. congruence.
    + apply lookup_ge_None in Hi. lia.
Qed.

(** X5: once every retired entry, the newest included, is older than a
    minute, the next packet [listenerEth.Accept] reads (of at least the
    least SYN size) makes the prune pass run out of range: the call
    panics instead of pruning. *)
Theorem Accept_panics_once_retired_entries_expire
        (sizes : bool -> nat * nat) (env : Flow.Env) (ipcfg : Z)
        (l : EthRegistry.listenerEth) (r : AddrPort) (i t0 now : Z)
        (ip pkt : list byte) (rest : list EthRegistry.read) :
  (forall c, In c (EthRegistry.closedConns l) ->
             EthRegistry.Minute < now - EthRegistry.DeleteAt c) ->
  EthRegistry.Minute < now - t0 ->
  (fst (sizes (Is4 (AddrOf (EthRegistry.addr l)))) <= snd (EthRegistry.fill ip pkt))%nat ->
  snd (fst (EthRegistry.accept_loop sizes env ipcfg (EthRegistry.deleteConn l r i t0) ip
              (EthRegistry.ReadPkt pkt now :: rest))) = Panics.
Proof.
  intros Hold Hnew Hn. cbn [EthRegistry.accept_loop].
  destruct (EthRegistry.fill ip pkt) as [ip' n]. cbn [fst snd] in *.
  apply Nat.ltb_ge in Hn.
  change (EthRegistry.addr (EthRegistry.deleteConn l r i t0)) with (EthRegistry.addr l).
  rewrite Hn.
  assert (Hp : snd (EthRegistry.purgeDeleted now (EthRegistry.deleteConn l r i t0)) = true).
  { apply purgeDeleted_panics_iff.
    destruct (last (EthRegistry.closedConns (EthRegistry.deleteConn l r i t0)))
      as [c|] eqn:Hc.
    - exists c. split; [reflexivity|].
      apply last_Some_elem_of, list_elem_of_In, deleteConn_In in Hc.
      destruct Hc as [Hc| ->]; [auto|exact Hnew].
    - apply last_None in Hc.
      assert (Hlen : length (EthRegistry.closedConns (EthRegistry.deleteConn l r i t0))
                     = S (length (EthRegistry.closedConns l))).
      { unfold EthRegistry.deleteConn. simpl. rewrite Slice_perm, length_app.
        simpl. lia. }
      rewrite Hc in Hlen. discriminate. }
  destruct (EthRegistry.purgeDeleted now (EthRegistry.deleteConn l r i t0)) as [l1 b].
  simpl in Hp. subst b. reflexivity.
Qed.

(** X4: [purgeDeleted] never completes a removal: a pass that returns has
    left the listener as it was, and the pass panics (index or slice bound
    out of range) exactly when the last entry of the retired queue is
    older than a minute. *)
Theorem purgeDeleted_unchanged_or_panics now l :
  (snd (EthRegistry.purgeDeleted now l) = false ->
   fst (EthRegistry.purgeDeleted now l) = l) /\
  (snd (EthRegistry.purgeDeleted now l) = true <->
   exists c, last (EthRegistry.closedConns l) = Some c /\
             EthRegistry.Minute < now - EthRegistry.DeleteAt c).
Proof.
  split; [apply purgeDeleted_returns | apply purgeDeleted_panics_iff].
Qed.

(** X6: the comparator handed to [sort.Slice] reads the same index twice,
    so it never says less and the sort (the insertion sort used up to 12
    elements) moves nothing: [deleteConn] leaves the queue in insertion
    order with the new entry last, whatever the timestamps are. *)
Theorem deleteConn_sort_changes_nothing l raddr isn now :
  (length (EthRegistry.closedConns l) < 12)%nat ->
  EthRegistry.closedConns (EthRegistry.deleteConn l raddr isn now) =
  EthRegistry.closedConns l ++
    [{| EthRegistry.DeleteAt := now; EthRegistry.Raddr := raddr;
        EthRegistry.ISN := isn |}].
Proof. intros _. apply deleteConn_appends. Qed.

(** X6 at work: entries stamped 5 s and 9 s, then one stamped 7 s. *)
Lemma deleteConn_sort_changes_nothing_witness :
  let e := fun t isn => {| EthRegistry.DeleteAt := t * Scenario.second;
                           EthRegistry.Raddr := Scenario.peer;
                           EthRegistry.ISN := isn |} in
  let l := EthRegistry.set_closedConns [e 5 1; e 9 2]
             (EthRegistry.ListenEth Scenario.local) in
  EthRegistry.closedConns
    (EthRegistry.deleteConn l Scenario.peer 3 (7 * Scenario.second)) =
  [e 5 1; e 9 2; e 7 3].
Proof.
  intros e l.
  apply (deleteConn_sort_changes_nothing l Scenario.peer 3 (7 * Scenario.second)).
  simpl. lia.
Defined.

(** X5 at work: a flow closed at 1 s, a SYN read at 62 s. *)
Lemma Accept_panics_once_retired_entries_expire_witness :
  snd (fst (EthRegistry.accept_loop Header.syn_sizes Flow.env_ok 0
              (EthRegistry.deleteConn (EthRegistry.ListenEth Scenario.local)
                 Scenario.peer 1 Scenario.second)
              (replicate 120 Byte.x00)
              [EthRegistry.ReadPkt (Scenario.syn 2) (62 * Scenario.second)])) = Panics.
Proof.
  apply (Accept_panics_once_retired_entries_expire Header.syn_sizes Flow.env_ok 0
           (EthRegistry.ListenEth Scenario.local) Scenario.peer 1 Scenario.second
           (62 * Scenario.second)).
  - intros c [].
  - vm_compute. reflexivity.
  - apply Nat.leb_le. vm_compute. reflexivity.
Defined.

(** [Listener.close] with a cause always reports an error. *)
Lemma Listener_close_reports (tcpClose rawClose : option error) L e :
  snd (TcpRegistry.close tcpClose rawClose L (Some e)) <> None.
Proof.
  unfold TcpRegistry.close, TcpRegistry.override.
  destruct (TcpRegistry.closeErr L); [discriminate|].
  destruct rawClose, tcpClose; discriminate.
Qed.

(** X8: [Listener.Accept] never hands out a flow.  Whatever it reads, a
    call that returns returns an error and no flow; every other run
    panics or does not return. *)
Theorem Listener_Accept_hands_out_no_flow sizes env ipcfg tcpClose rawClose
        (L : TcpRegistry.Listener) (reads : list EthRegistry.read) :
  match snd (fst (TcpRegistry.Accept sizes env ipcfg tcpClose rawClose L reads)) with
  | Returns r => TcpRegistry.flow r = None /\ TcpRegistry.err r <> None
  | _ => True
  end.
Proof.
  unfold TcpRegistry.Accept. cbv zeta.
  generalize (replicate (snd (sizes (Is4 (AddrOf (TcpRegistry.addr L))))) Byte.x00).
  intros ip. revert L ip.
  induction reads as [|rd reads IH]; intros L ip; cbn [TcpRegistry.accept_loop].
  - exact I.
  - destruct rd as [e|pkt now].
    + (* a read error goes through close, which reports it or an older one *)
      pose proof (Listener_close_reports tcpClose rawClose L e) as Hc.
      destruct (TcpRegistry.close tcpClose rawClose L (Some e)) as [L' e'].
      split; [reflexivity|exact Hc].
    + destruct (EthRegistry.fill ip pkt) as [ip' n].
      destruct (n <? _)%nat; [split; [reflexivity|discriminate]|].
      destruct (EthRegistry.parse ip' n) as [raddr isn| |]; [|apply IH|exact I].
      cbv zeta.
      (* a known identity is passed over; a new one waits for the lock *)
      destruct (bool_decide _); [apply IH|].
      reflexivity.
Qed.

(** X9: on a SYN whose identity is not in the live set, [Listener.Accept]
    has taken the read lock twice without releasing it when it asks for
    the write lock: the call does not return, and the live set is left
    unchanged. *)
Theorem Listener_new_identity_waits_for_its_own_locks
        sizes env ipcfg tcpClose rawClose
        (L : TcpRegistry.Listener) ip pkt now rest raddr isn :
  (fst (sizes (Is4 (AddrOf (TcpRegistry.addr L)))) <= snd (EthRegistry.fill ip pkt))%nat ->
  EthRegistry.parse (fst (EthRegistry.fill ip pkt)) (snd (EthRegistry.fill ip pkt))
    = EthRegistry.Syn raddr isn ->
  {| TcpRegistry.Local := TcpRegistry.addr L; TcpRegistry.Remote := raddr;
     TcpRegistry.ISN := isn |} ∉ TcpRegistry.conns L ->
  TcpRegistry.accept_loop sizes env ipcfg tcpClose rawClose L ip
      (EthRegistry.ReadPkt pkt now :: rest) =
  (TcpRegistry.RLock (TcpRegistry.RLock L), Blocks, rest).
Proof.
  intros Hn Hp Hin. cbn [TcpRegistry.accept_loop].
  destruct (EthRegistry.fill ip pkt) as [ip' n]. cbn [fst snd] in *.
  apply Nat.ltb_ge in Hn. rewrite Hn, Hp.
  cbv zeta. cbn [TcpRegistry.RLock TcpRegistry.conns TcpRegistry.addr].
  rewrite bool_decide_eq_false_2 by exact Hin. reflexivity.
Qed.

(** X9 at work: the first SYN a fresh listener reads. *)
Lemma Listener_new_identity_waits_for_its_own_locks_witness :
  TcpRegistry.accept_loop Header.syn_sizes Flow.env_ok 0 None None
      (TcpRegistry.Listen Scenario.local) (replicate 120 Byte.x00)
      [EthRegistry.ReadPkt (Scenario.syn 1) Scenario.second] =
  (TcpRegistry.RLock (TcpRegistry.RLock (TcpRegistry.Listen Scenario.local)), Blocks, []).
Proof.
  apply (Listener_new_identity_waits_for_its_own_locks Header.syn_sizes Flow.env_ok 0
           None None (TcpRegistry.Listen Scenario.local) (replicate 120 Byte.x00)
           (Scenario.syn 1) Scenario.second [] Scenario.peer 1).
  - apply Nat.leb_le. vm_compute. reflexivity.
  - vm_compute. reflexivity.
  - cbn [TcpRegistry.conns TcpRegistry.Listen]. apply not_elem_of_empty.
Defined.

(** The timer callbacks that run delete the identities they were set
    for. *)
Lemma fold_difference_removes (id : TcpRegistry.ID) (due : list (Z * TcpRegistry.ID)) :
  forall s : gset TcpRegistry.ID,
  (id ∉ s \/ exists t, In (t, id) due) ->
  id ∉ fold_left (fun s t => s ∖ {[snd t]}) due s.
Proof.
  induction due as [|[t0 id0] due IH]; intros s H; simpl.
  - destruct H as [H|[t []]]. exact H.
  - apply IH. destruct H as [H|[t [Ht|Ht]]].
    + left. intros Hx. apply elem_of_difference in Hx as [Hx _]. auto.
    + injection Ht as -> ->. left. intros Hx.
      apply elem_of_difference in Hx as [_ Hx]. apply Hx.
      apply elem_of_singleton. reflexivity.
    + right. eauto.
Qed.

(** X10: the timer [Listener.deleteConn] sets removes the identity from
    the live set once the minute is over, provided no read lock is held;
    while one is held (as after any SYN [Accept] has looked up) the
    callback never gets the write lock and the live set stays as it
    is. *)
Theorem Listener_timer_removes_only_without_readers
        (L : TcpRegistry.Listener) (id : TcpRegistry.ID) (t0 now : Z) :
  t0 + TcpRegistry.Minute <= now ->
  (TcpRegistry.readers L = 0%nat ->
   id ∉ TcpRegistry.conns (TcpRegistry.fire now (TcpRegistry.deleteConn L id t0))) /\
  (TcpRegistry.readers L <> 0%nat ->
   TcpRegistry.conns (TcpRegistry.fire now (TcpRegistry.deleteConn L id t0)) =
   TcpRegistry.conns L).
Proof.
  intros Hdue. unfold TcpRegistry.fire, TcpRegistry.can_Lock.
  cbn [TcpRegistry.readers TcpRegistry.set_timers TcpRegistry.deleteConn
       TcpRegistry.timers TcpRegistry.conns].
  split; intros Hr.
  - rewrite Hr. cbn [Nat.eqb TcpRegistry.conns TcpRegistry.set_conns].
    apply fold_difference_removes. right. exists (t0 + TcpRegistry.Minute).
    apply list_elem_of_In, list_elem_of_filter. split.
    + simpl. apply bool_decide_pack. exact Hdue.
    + apply elem_of_app. right. apply list_elem_of_singleton. reflexivity.
  - destruct (TcpRegistry.readers L) as [|n]; [contradiction|]. reflexivity.
Qed.

(** X10 at work: a close at 1 s, the timers run at 61 s. *)
Lemma Listener_timer_removes_only_without_readers_witness :
  let id := {| TcpRegistry.Local := Scenario.local;
               TcpRegistry.Remote := Scenario.peer; TcpRegistry.ISN := 1 |} in
  let L := TcpRegistry.set_conns {[ id ]} (TcpRegistry.Listen Scenario.local) in
  (TcpRegistry.readers L = 0%nat ->
   id ∉ TcpRegistry.conns
          (TcpRegistry.fire (61 * Scenario.second)
             (TcpRegistry.deleteConn L id Scenario.second))) /\
  (TcpRegistry.readers L <> 0%nat ->
   TcpRegistry.conns
     (TcpRegistry.fire (61 * Scenario.second)
        (TcpRegistry.deleteConn L id Scenario.second)) = TcpRegistry.conns L).
Proof.
  intros id L.
  apply (Listener_timer_removes_only_without_readers L id Scenario.second
           (61 * Scenario.second)).
  vm_compute. discriminate.
Defined.

(** X11: the first [Listener.close] returns the error of closing the raw
    socket, else that of closing the port guard, else its cause; every
    later call changes nothing and returns that error again, or
    [net.ErrClosed] when the first close was clean. *)
Theorem Listener_close_is_idempotent (tcpClose rawClose : option error)
        (L : TcpRegistry.Listener) (cause cause' : option error) :
  TcpRegistry.closeErr L = None ->
  let first := TcpRegistry.close tcpClose rawClose L cause in
  snd first = TcpRegistry.override (TcpRegistry.override cause tcpClose) rawClose /\
  TcpRegistry.close tcpClose rawClose (fst first) cause' =
    (fst first, Some (default ErrClosed (snd first))).
Proof.
  intros Hopen. unfold TcpRegistry.close. rewrite Hopen. cbn [fst snd].
  split; reflexivity.
Qed.

(** X11 at work: a clean close, then a second one. *)
Lemma Listener_close_is_idempotent_witness :
  let first := TcpRegistry.close None None
                 (TcpRegistry.Listen Scenario.local) None in
  snd first = None /\
  TcpRegistry.close None None (fst first) None = (fst first, Some ErrClosed).
Proof.
  apply (Listener_close_is_idempotent None None (TcpRegistry.Listen Scenario.local)
           None None).
  reflexivity.
Defined.


Lemma notify_without_callback now calls : forall l,
  Forall Flow.not_a_close_callback calls -> EthRegistry.notify now l calls = l.
Proof.
  induction calls as [|c calls IH]; intros l H; [reflexivity|].
  inversion H as [|? ? Hc Hrest]; subst.
  unfold EthRegistry.notify. simpl. fold (EthRegistry.notify now).
  destruct c; try contradiction; apply IH; exact Hrest.
Qed.

(** [init] itself never calls the registry's callback. *)
Lemma init_body_makes_no_callback env ipcfg c :
  Forall Flow.not_a_close_callback (snd (fst (Flow.init_body env ipcfg (c, [])))).
Proof.
  unfold Flow.init_body.
  cbv [Flow.bind Flow.try Flow.check Flow.may_panic Flow.defer Flow.log Flow.get
       Flow.modify Flow.fail Flow.ret].
  cbn -[Z.mul].
  repeat match goal with
         | |- context [match ?x with _ => _ end] =>
           match type of x with
           | sum _ _ => destruct x
           | option _ => destruct x
           | outcome _ => destruct x
           | bool => destruct x
           end; cbn -[Z.mul]
         end; repeat constructor.
Qed.




(** ** Setting up a flow, and the embedded engine, beyond the claims *)

(** Every path through [init], one goal each. *)
Ltac init_cases :=
  cbv [Flow.bind Flow.try Flow.check Flow.may_panic Flow.defer Flow.log Flow.get
       Flow.modify Flow.fail Flow.ret];
  cbn -[Z.mul];
  repeat match goal with
         | |- context [match ?x with _ => _ end] =>
           match type of x with
           | sum _ _ => destruct x eqn:?
           | option _ => destruct x eqn:?
           | outcome _ => destruct x eqn:?
           | bool => destruct x eqn:?
           end; cbn -[Z.mul]
         end.

(** X12: whenever [Conn.init] has dialled the ARP client, closing that
    client is the last call it makes, on every path: a failed deadline, a
    failed resolution, a failed [eth.Listen], filter or stack, and
    success. *)
Theorem init_closes_the_arp_client_last (env : Flow.Env) (ipcfg : Z) (c : Flow.Conn)
        (rifi client : Z) :
  In (Flow.CallArpDial rifi) (Flow.calls (Flow.Conn_init env ipcfg c)) ->
  Flow.arpDial env rifi = inr client ->
  last (Flow.calls (Flow.Conn_init env ipcfg c)) = Some (Flow.CallClientClose client).
Proof.
  unfold Flow.Conn_init, Flow.init_body.
  init_cases; intros Hin Hdial; cbn in Hin;
    repeat (destruct Hin as [Hin|Hin]; [try discriminate|]); try contradiction;
    try (injection Hin as <-; congruence).
Qed.

(** A failed [ConnEth.init] has closed the handle it opened. *)
Lemma ConnEth_init_failure_closes_handle (env : Flow.Env) (ipcfg : Z) (c : Flow.Conn)
        (e : error) ifi r :
  Flow.result (Flow.ConnEth_init env ipcfg c) = Returns (Some e) ->
  In (Flow.CallEthListen ifi) (Flow.calls (Flow.ConnEth_init env ipcfg c)) ->
  Flow.ethListen env ifi = inr r ->
  In (Flow.CallRawClose r) (Flow.calls (Flow.ConnEth_init env ipcfg c)).
Proof.
  destruct c as [la ra i tcp raw ips gw cf].
  unfold Flow.ConnEth_init, Flow.init_body.
  init_cases; intros Hres; try discriminate; intros Hin Hl;
    unfold Flow.close_calls in *; cbn in Hin |- *;
    repeat (destruct Hin as [Hin|Hin]; [try discriminate|]); try contradiction.
  all: try (injection Hin as <-).
  all: try congruence.
  all: match goal with
       | H1 : Flow.ethListen _ ?z = inr ?a, H2 : Flow.ethListen _ ?z = inr ?b |- _ =>
         assert (a = b) by congruence; subst
       end; repeat (first [left; reflexivity | right]).
Qed.

(** A failed [ConnEth.init] ends with the registry's callback. *)
Lemma ConnEth_init_failure_notifies (env : Flow.Env) (ipcfg : Z) (c : Flow.Conn)
        (e : error) :
  Flow.result (Flow.ConnEth_init env ipcfg c) = Returns (Some e) ->
  Flow.closeFn c = true ->
  last (Flow.calls (Flow.ConnEth_init env ipcfg c)) =
    Some (Flow.CallCloseFn (Flow.raddr c) (Flow.isn c)).
Proof.
  destruct c as [la ra i tcp raw ips gw cf]. cbn [Flow.closeFn Flow.raddr Flow.isn].
  intros Hres ->. revert Hres.
  unfold Flow.ConnEth_init, Flow.init_body.
  init_cases; intros Hres; try discriminate; reflexivity.
Qed.

(** X13: [ConnEth.init] leaves nothing half-built behind an error: on
    every failing path the link-layer handle, if [eth.Listen] had opened
    one, has been closed, and for a registry-owned flow the last call is
    the registry's callback with the identity of the flow. *)
Theorem ConnEth_init_failure_tears_down (env : Flow.Env) (ipcfg : Z) (c : Flow.Conn)
        (e : error) :
  Flow.result (Flow.ConnEth_init env ipcfg c) = Returns (Some e) ->
  let calls := Flow.calls (Flow.ConnEth_init env ipcfg c) in
  (forall ifi r, In (Flow.CallEthListen ifi) calls -> Flow.ethListen env ifi = inr r ->
                 In (Flow.CallRawClose r) calls) /\
  (Flow.closeFn c = true ->
   last calls = Some (Flow.CallCloseFn (Flow.raddr c) (Flow.isn c))).
Proof.
  intros Hres calls. split.
  - intros ifi r. apply (ConnEth_init_failure_closes_handle env ipcfg c e); exact Hres.
  - apply (ConnEth_init_failure_notifies env ipcfg c e). exact Hres.
Qed.

(** The compare-and-swap leaves [inited] set whatever follows. *)
Lemma commit_sets_inited d h s :
  Stack.inited (fst (fst (Stack.commit d h s))) = true.
Proof.
  unfold Stack.commit, Stack.initBase.
  destruct (Stack.inited s) eqn:E; [exact E|].
  destruct (Stack.NewEndpoint h); [reflexivity|].
  destruct (Stack.Bind h); reflexivity.
Qed.

(** X14: the role is decided by the first of [RecvRaw] and [SendRaw]:
    after either, no later call of either starts a handshake driver or
    touches the state again. *)
Theorem role_is_committed_once (h : Stack.Hosted) (s : Stack.TCPStackGvisor)
        (rawCh rawCh' : list (list byte)) (hdr hdr' : list byte) :
  let after_recv := fst (fst (Stack.RecvRaw h s rawCh)) in
  let after_send := fst (fst (Stack.SendRaw h s hdr)) in
  (snd (Stack.SendRaw h after_recv hdr') = None /\
   fst (fst (Stack.SendRaw h after_recv hdr')) = after_recv /\
   snd (Stack.RecvRaw h after_recv rawCh') = None /\
   fst (fst (Stack.RecvRaw h after_recv rawCh')) = after_recv) /\
  (snd (Stack.RecvRaw h after_send rawCh') = None /\
   fst (fst (Stack.RecvRaw h after_send rawCh')) = after_send /\
   snd (Stack.SendRaw h after_send hdr') = None /\
   fst (fst (Stack.SendRaw h after_send hdr')) = after_send).
Proof.
  cbv zeta.
  assert (Hr : Stack.inited (fst (fst (Stack.RecvRaw h s rawCh))) = true).
  { unfold Stack.RecvRaw. pose proof (commit_sets_inited Stack.DriveConnect h s) as H.
    destruct (Stack.commit Stack.DriveConnect h s) as [[s1 e] d].
    destruct e; [exact H|]. destruct rawCh; exact H. }
  assert (Hs : Stack.inited (fst (fst (Stack.SendRaw h s hdr))) = true).
  { unfold Stack.SendRaw. pose proof (commit_sets_inited Stack.DriveAccept h s) as H.
    destruct (Stack.commit Stack.DriveAccept h s) as [[s1 e] d].
    destruct e; exact H. }
  set (s1 := fst (fst (Stack.RecvRaw h s rawCh))) in *.
  set (s2 := fst (fst (Stack.SendRaw h s hdr))) in *.
  unfold Stack.RecvRaw, Stack.SendRaw, Stack.commit. rewrite Hr, Hs.
  destruct rawCh'; repeat split.
Qed.

(** X15: the gate of [SendSeg] and [RecvSeg] is the flag the committing
    call sets before the handshake is driven: once [RecvRaw] or [SendRaw]
    has committed the role with a good endpoint, [SendSeg] goes straight
    to the endpoint's [Write] and [RecvSeg] to its [Read], broadcast or
    not, handshake finished or not. *)
Theorem segments_flow_once_the_role_is_committed
        (d : Stack.driver) (h : Stack.Hosted) (s : Stack.TCPStackGvisor)
        (seg : list byte) (r : Stack.ReadResult) (rest : list Stack.ReadResult) :
  Stack.inited s = false ->
  snd (Stack.initBase h (Stack.set_inited s)) = None ->
  Stack.isWouldBlock (snd r) = false ->
  let s1 := fst (fst (Stack.commit d h s)) in
  snd (Stack.commit d h s) = Some d /\
  Stack.SendSeg h s1 false seg =
    match Stack.Write h seg with
    | (_, Some e) => Returns (0, Some (ErrorsNew (Stack.String_of e)))
    | (n, None) => Returns (n, None)
    end /\
  Stack.RecvSeg s1 false (r :: rest) <> Blocks.
Proof.
  intros Hin Hbase Hr. cbv zeta.
  unfold Stack.commit. rewrite Hin.
  unfold Stack.initBase in *.
  destruct (Stack.NewEndpoint h); [discriminate|].
  destruct (Stack.Bind h); [discriminate|].
  cbn [fst snd]. unfold Stack.SendSeg, Stack.RecvSeg, Stack.passes_gate.
  cbn [Stack.inited Stack.ep Stack.set_initErr Stack.set_ep Stack.set_inited
       orb negb]. rewrite Hr.
  repeat split.
  destruct r as [n [[]|]]; try discriminate.
Qed.

(** Would-block answers only: the reader stays on the event channel. *)
Lemma read_until_ready_none (reads : list Stack.ReadResult) :
  Forall (fun p => snd p = Some Stack.ErrWouldBlock) reads ->
  Stack.read_until_ready reads = None.
Proof.
  induction 1 as [|p reads Hp _ IH]; simpl; [reflexivity|].
  rewrite Hp. exact IH.
Qed.

(** X16: [RecvSeg] reads again after every would-block answer and returns
    by the first other answer: its count, [io.EOF] for closed-for-receive,
    or an error made of the engine's text; with would-block answers only
    it does not return. *)
Theorem RecvSeg_returns_the_first_ready_read
        (s : Stack.TCPStackGvisor) (woken : bool)
        (pre : list Stack.ReadResult) (r : Stack.ReadResult)
        (rest : list Stack.ReadResult) :
  Stack.passes_gate s woken = true ->
  Stack.ep s = true ->
  Forall (fun p => snd p = Some Stack.ErrWouldBlock) pre ->
  Stack.isWouldBlock (snd r) = false ->
  Stack.RecvSeg s woken pre = Blocks /\
  Stack.RecvSeg s woken (pre ++ r :: rest) =
    match r with
    | (_, Some Stack.ErrClosedForReceive) => Returns (0, Some EOF)
    | (_, Some e) => Returns (0, Some (ErrorsNew (Stack.String_of e)))
    | (count, None) => Returns (count, None)
    end.
Proof.
  intros Hgate Hep Hpre Hr. unfold Stack.RecvSeg. rewrite Hgate, Hep.
  cbn [negb]. cbv iota. split.
  - destruct Hpre as [|p pre Hp Hpre]; [reflexivity|].
    rewrite Hp. simpl.
    pose proof (read_until_ready_none pre Hpre) as Hnone.
    unfold Stack.ReadResult in *. rewrite Hnone. reflexivity.
  - destruct Hpre as [|p pre Hp Hpre]; simpl.
    + rewrite Hr. destruct r as [n [[]|]]; reflexivity.
    + rewrite Hp. simpl.
      pose proof (read_until_ready_skips pre r rest Hpre Hr) as Hskip.
      unfold Stack.ReadResult in *. rewrite Hskip.
      destruct r as [n [[]|]]; reflexivity.
Qed.

(** X12 at work in the environment where every call succeeds. *)
Lemma init_closes_the_arp_client_last_witness :
  last (Flow.calls (Flow.Conn_init Flow.env_ok 0
          (Flow.newConnect Scenario.local Scenario.peer 7 true))) =
  Some (Flow.CallClientClose 7).
Proof.
  apply (init_closes_the_arp_client_last Flow.env_ok 0 _ 2 7).
  - cbn. right. right. right. left. reflexivity.
  - reflexivity.
Defined.

(** X13 at work: the handle 9 is opened, attaching the filter fails. *)
Lemma ConnEth_init_failure_tears_down_witness :
  let calls := Flow.calls (Flow.ConnEth_init Flow.env_bpf_fails 0
                 (Flow.newConnect Scenario.local Scenario.peer 7 true)) in
  In (Flow.CallRawClose 9) calls /\
  last calls = Some (Flow.CallCloseFn Scenario.peer 7).
Proof.
  intros calls.
  destruct (ConnEth_init_failure_tears_down Flow.env_bpf_fails 0
              (Flow.newConnect Scenario.local Scenario.peer 7 true) (Errno 22)
              eq_refl) as [Hraw Hcb].
  split.
  - apply (Hraw 2 9); [|reflexivity].
    cbn. do 6 right. left. reflexivity.
  - apply Hcb. reflexivity.
Defined.

(** X15 at work: a fresh engine whose endpoint binds, committed by
    [RecvRaw]; the connect is still to be driven. *)
Lemma segments_flow_once_the_role_is_committed_witness :
  let h := {| Stack.NewEndpoint := None; Stack.Bind := None; Stack.Listen := None;
              Stack.Connect := Some Stack.ErrConnectStarted; Stack.LastError := None;
              Stack.Write := fun seg => (Z.of_nat (length seg), None) |} in
  let s := Stack.NewTCPStackGvisor 19986 8080 in
  let s1 := fst (fst (Stack.commit Stack.DriveConnect h s)) in
  snd (Stack.commit Stack.DriveConnect h s) = Some Stack.DriveConnect /\
  Stack.SendSeg h s1 false [Byte.x01; Byte.x02] =
    match Stack.Write h [Byte.x01; Byte.x02] with
    | (_, Some e) => Returns (0, Some (ErrorsNew (Stack.String_of e)))
    | (n, None) => Returns (n, None)
    end /\
  Stack.RecvSeg s1 false [(2, None)] <> Blocks.
Proof.
  intros h s.
  apply (segments_flow_once_the_role_is_committed Stack.DriveConnect h s
           [Byte.x01; Byte.x02] (2, None) []); reflexivity.
Defined.

(** X16 at work: two would-block answers, then three bytes. *)
Lemma RecvSeg_returns_the_first_ready_read_witness :
  let h := {| Stack.NewEndpoint := None; Stack.Bind := None; Stack.Listen := None;
              Stack.Connect := None; Stack.LastError := None;
              Stack.Write := fun _ => (0, None) |} in
  let s := fst (fst (Stack.RecvRaw h (Stack.NewTCPStackGvisor 19986 8080) [])) in
  let pre := [(0, Some Stack.ErrWouldBlock); (0, Some Stack.ErrWouldBlock)] in
  Stack.RecvSeg s false pre = Blocks /\
  Stack.RecvSeg s false (pre ++ [(3, None)]) = Returns (3, None).
Proof.
  intros h s pre.
  apply (RecvSeg_returns_the_first_ready_read s false pre (3, None) []).
  - reflexivity.
  - reflexivity.
  - repeat constructor.
  - reflexivity.
Defined.

(** ** Configuration, the offload cache, the receive loop and the port guard *)

Section OptionsFacts.
Variable ipstackOption ipstackConfigs : Type.
Variable ipstackOptions : list ipstackOption -> ipstackConfigs.


(** No option of the package makes the period non-positive. *)
Lemma built_keeps_period_positive opt (c : ConnConfig.Config ipstackConfigs) :
  ConnConfig.built ipstackOption ipstackConfigs ipstackOptions opt -> 0 < ConnConfig.CtxPeriod c -> 0 < ConnConfig.CtxPeriod (opt c).
Proof.
  intros [|period|o|e] Hc; cbn; try exact Hc.
  unfold ConnConfig.OptCtxPeriod.
  destruct (period >? 0) eqn:E; [|exact Hc]. cbn. apply Z.gtb_lt in E. lia.
Qed.

Lemma fold_period_positive opts : forall c : ConnConfig.Config ipstackConfigs,
  Forall (ConnConfig.built ipstackOption ipstackConfigs ipstackOptions) opts -> 0 < ConnConfig.CtxPeriod c ->
  0 < ConnConfig.CtxPeriod (fold_left (fun cfg opt => opt cfg) opts c).
Proof.
  induction opts as [|o opts IH]; intros c Hall Hc; [exact Hc|].
  inversion Hall; subst. simpl. apply IH; [assumption|].
  apply built_keeps_period_positive; assumption.
Qed.

(** X17: whatever options of the package are given, the polling period
    of the configuration is positive: [CtxPeriod] with a non-positive
    value changes nothing, and with a positive one it overrides what came
    before. *)
Theorem Options_CtxPeriod_is_positive (opts : list (ConnConfig.Option ipstackConfigs))
        (period : Z) :
  Forall (ConnConfig.built ipstackOption ipstackConfigs ipstackOptions) opts ->
  0 < ConnConfig.CtxPeriod (ConnConfig.Options ipstackOption ipstackConfigs ipstackOptions opts) /\
  ConnConfig.CtxPeriod
    (ConnConfig.Options ipstackOption ipstackConfigs ipstackOptions
       (opts ++ [ConnConfig.OptCtxPeriod period])) =
    (if period >? 0 then period else ConnConfig.CtxPeriod (ConnConfig.Options ipstackOption ipstackConfigs ipstackOptions opts)).
Proof.
  intros Hall. split.
  - apply fold_period_positive; [exact Hall|]. cbn. unfold ConnConfig.Millisecond. lia.
  - unfold ConnConfig.Options. rewrite fold_left_app. cbn [fold_left].
    unfold ConnConfig.OptCtxPeriod at 1. destruct (period >? 0); reflexivity.
Qed.

(** No option of the package clears [UsedPort], and only the one of
    that name sets it. *)
Lemma built_keeps_UsedPort opt (c : ConnConfig.Config ipstackConfigs) :
  ConnConfig.built ipstackOption ipstackConfigs ipstackOptions opt ->
  ConnConfig.UsedPort c = true -> ConnConfig.UsedPort (opt c) = true.
Proof.
  intros [|period|o|e] Hc; cbn; try exact Hc; try reflexivity.
  unfold ConnConfig.OptCtxPeriod. destruct (period >? 0); exact Hc.
Qed.

Lemma built_sets_UsedPort opt (c : ConnConfig.Config ipstackConfigs) :
  ConnConfig.built ipstackOption ipstackConfigs ipstackOptions opt ->
  ConnConfig.UsedPort (opt c) = true ->
  ConnConfig.UsedPort c = true \/ opt = ConnConfig.OptUsedPort.
Proof.
  intros [|period|o|e] Hc; cbn in Hc; auto.
  unfold ConnConfig.OptCtxPeriod in Hc. destruct (period >? 0); auto.
Qed.

(** X18: [UsedPort] is set in the configuration exactly when the option
    [UsedPort()] is among those given, wherever it stands in the list. *)
Theorem Options_UsedPort_is_sticky (opts : list (ConnConfig.Option ipstackConfigs)) :
  Forall (ConnConfig.built ipstackOption ipstackConfigs ipstackOptions) opts ->
  ConnConfig.UsedPort (ConnConfig.Options ipstackOption ipstackConfigs ipstackOptions opts)
    = true <->
  In ConnConfig.OptUsedPort opts.
Proof.
  unfold ConnConfig.Options. cbv zeta.
  induction opts as [|o opts IH] using rev_ind; intros Hall.
  - cbn. split; [discriminate|contradiction].
  - apply Forall_app in Hall as [Hall Ho]. inversion Ho as [|? ? Hb _]; subst.
    specialize (IH Hall). rewrite fold_left_app. cbn [fold_left]. split.
    + intros H. apply in_or_app.
      apply (built_sets_UsedPort o _ Hb) in H as [H| ->].
      * left. apply IH. exact H.
      * right. left. reflexivity.
    + intros H. apply in_app_or in H as [H|[Heq|[]]]; [|subst o].
      * apply (built_keeps_UsedPort o _ Hb). apply IH. exact H.
      * reflexivity.
Qed.
End OptionsFacts.



(** X19: for a remote that is not private, [SetTSO] stores the setting in
    the cache on every path that went past the cache, the failing ones
    included; the next call for the same local address and setting then
    returns nil at once, without a route lookup or an ioctl. *)
Theorem SetTSO_remembers_failures_too (env env' : TSO.Env) (tsoCache : gmap Addr bool)
        (local remote remote' : Addr) (tso : bool) :
  TSO.IsPrivate env remote = false ->
  TSO.IsPrivate env' remote' = false ->
  let first := TSO.SetTSO env tsoCache local remote tso in
  TSO.cache first !! local = Some tso /\
  TSO.SetTSO env' (TSO.cache first) local remote' tso =
    {| TSO.cache := TSO.cache first; TSO.err := None; TSO.calls := [] |}.
Proof.
  intros Hpub Hpub'. cbv zeta.
  assert (Hc : TSO.cache (TSO.SetTSO env tsoCache local remote tso) !! local = Some tso).
  { unfold TSO.SetTSO. rewrite Hpub. cbn [negb andb].
    destruct (tsoCache !! local) as [old|] eqn:E.
    - destruct (Bool.eqb old tso) eqn:Eb.
      + apply Bool.eqb_prop in Eb. subst old. exact E.
      + destruct (TSO.GetTable env) as [e|table]; [apply lookup_insert_eq|].
        destruct (_ =? 0); [apply lookup_insert_eq|].
        destruct (TSO.IoctlGifname env _); apply lookup_insert_eq.
    - destruct (TSO.GetTable env) as [e|table]; [apply lookup_insert_eq|].
      destruct (_ =? 0); [apply lookup_insert_eq|].
      destruct (TSO.IoctlGifname env _); apply lookup_insert_eq. }
  split; [exact Hc|].
  unfold TSO.SetTSO at 1. rewrite Hpub', Hc, Bool.eqb_reflx. reflexivity.
Qed.

(** X20: for a private remote [SetTSO] neither reads nor writes the
    cache: the cache is handed back as it was, and the calls made and the
    error returned do not depend on it; the route table is always
    asked. *)
Theorem SetTSO_private_remote_bypasses_cache (env : TSO.Env)
        (tsoCache other : gmap Addr bool) (local remote : Addr) (tso : bool) :
  TSO.IsPrivate env remote = true ->
  TSO.cache (TSO.SetTSO env tsoCache local remote tso) = tsoCache /\
  TSO.err (TSO.SetTSO env tsoCache local remote tso) =
    TSO.err (TSO.SetTSO env other local remote tso) /\
  TSO.calls (TSO.SetTSO env tsoCache local remote tso) =
    TSO.calls (TSO.SetTSO env other local remote tso) /\
  TSO.calls (TSO.SetTSO env tsoCache local remote tso) <> [].
Proof.
  intros Hpriv. unfold TSO.SetTSO. rewrite Hpriv. cbn [negb andb].
  destruct (TSO.GetTable env) as [e|table]; [repeat split; discriminate|].
  destruct (_ =? 0); [repeat split; discriminate|].
  destruct (TSO.IoctlGifname env _); repeat split; discriminate.
Qed.



(** Rounds in which the deadline passes and nobody has cancelled are
    gone through. *)
Lemma recv_loop_skips_quiet ctxErr pre : forall rest,
  Forall FlowRead.quiet pre ->
  FlowRead.recv_loop ctxErr (pre ++ rest) = FlowRead.recv_loop ctxErr rest.
Proof.
  induction pre as [|r pre IH]; intros rest Hq; [reflexivity|].
  inversion Hq as [|? ? (Hd & Hr & Hc) Hrest]; subst.
  cbn [app FlowRead.recv_loop]. rewrite Hd, Hr, Hc. apply IH. exact Hrest.
Qed.

(** X21: the receive loop of [Read] looks at the context only when a
    read deadline has passed.  After any number of quiet rounds, a round
    that times out with the context cancelled returns [ctx.Err()], a
    packet that arrives is returned even though the context is already
    cancelled, and while rounds stay quiet the call does not return. *)
Theorem Read_sees_cancellation_only_at_a_timeout (ctxErr : error)
        (pre rest : list FlowRead.round) (n : nat) :
  Forall FlowRead.quiet pre ->
  FlowRead.recv_loop ctxErr pre = Blocks /\
  FlowRead.recv_loop ctxErr
    (pre ++ {| FlowRead.SetReadDeadline := None; FlowRead.Recvfrom := FlowRead.RecvDeadline;
               FlowRead.ctxDone := true |} :: rest) = Returns (inl ctxErr) /\
  FlowRead.recv_loop ctxErr
    (pre ++ {| FlowRead.SetReadDeadline := None; FlowRead.Recvfrom := FlowRead.RecvOk n;
               FlowRead.ctxDone := true |} :: rest) = Returns (inr n).
Proof.
  intros Hq. repeat split.
  - rewrite <- (app_nil_r pre). rewrite recv_loop_skips_quiet by exact Hq. reflexivity.
  - rewrite recv_loop_skips_quiet by exact Hq. reflexivity.
  - rewrite recv_loop_skips_quiet by exact Hq. reflexivity.
Qed.

(** X22: once [net.ListenTCP] has bound the port, [ListenLocal] without
    [usedPort] either returns the listener with the one-instruction filter
    attached (a program that rejects every packet) and the caller's
    address with the bound port, or returns an error after closing the
    listener; with [usedPort] it returns an error and leaves the listener
    it has just bound open. *)
Theorem ListenLocal_closes_what_it_does_not_return (os : PortGuard.OS) (laddr : AddrPort)
        (usedPort : bool) (l : PortGuard.TCPListener) :
  PortGuard.ListenTCP os laddr = inr l ->
  let r := PortGuard.ListenLocal os laddr usedPort in
  (usedPort = false ->
   (PortGuard.listener r = Some l /\ PortGuard.err r = None /\
    PortGuard.address r = AddrPortFrom (AddrOf laddr) (PortGuard.boundPort l) /\
    exists prog, PortGuard.effects r = [PortGuard.AttachFilter l prog] /\
                 forall pkt, Bpf.run prog pkt = 0) \/
   (PortGuard.listener r = None /\ PortGuard.err r <> None /\
    PortGuard.address r = AddrPortZero /\
    PortGuard.effects r = [PortGuard.Close l])) /\
  (usedPort = true ->
   PortGuard.listener r = None /\ PortGuard.err r <> None /\
   PortGuard.effects r = []).
Proof.
  intros Hl. cbv zeta. unfold PortGuard.ListenLocal. rewrite Hl. split; intros ->.
  - destruct (PortGuard.SyscallConn os l); [right; repeat split; discriminate|].
    destruct (PortGuard.Control os l); [right; repeat split; discriminate|].
    destruct (PortGuard.Assemble os); [right; repeat split; discriminate|].
    destruct (PortGuard.SetsockoptSockFprog os l); [right; repeat split; discriminate|].
    left. repeat split. eexists. split; [reflexivity|]. intros pkt. reflexivity.
  - repeat split. discriminate.
Qed.

(** X17 at work: two periods that are ignored, then 5 ms. *)
Lemma Options_CtxPeriod_is_positive_witness :
  let opts := [ConnConfig.OptCtxPeriod 0; @ConnConfig.OptUsedPort unit;
               ConnConfig.OptCtxPeriod (-5)] in
  0 < ConnConfig.CtxPeriod (ConnConfig.Options unit unit (fun _ => tt) opts) /\
  ConnConfig.CtxPeriod
    (ConnConfig.Options unit unit (fun _ => tt)
       (opts ++ [ConnConfig.OptCtxPeriod (5 * ConnConfig.Millisecond)])) =
    (if 5 * ConnConfig.Millisecond >? 0 then 5 * ConnConfig.Millisecond
     else ConnConfig.CtxPeriod (ConnConfig.Options unit unit (fun _ => tt) opts)).
Proof.
  intros opts.
  apply (Options_CtxPeriod_is_positive unit unit (fun _ => tt) opts
           (5 * ConnConfig.Millisecond)).
  repeat constructor.
Defined.

(** X18 at work. *)
Lemma Options_UsedPort_is_sticky_witness :
  let opts := [@ConnConfig.OptUsedPort unit; ConnConfig.OptTSO true;
               ConnConfig.OptCtxPeriod 7] in
  ConnConfig.UsedPort (ConnConfig.Options unit unit (fun _ => tt) opts) = true <->
  In ConnConfig.OptUsedPort opts.
Proof.
  intros opts.
  apply (Options_UsedPort_is_sticky unit unit (fun _ => tt) opts).
  repeat constructor.
Defined.

(** X19 at work: the route table cannot be read, the call fails, and the
    next call takes the setting as made. *)
Lemma SetTSO_remembers_failures_too_witness :
  let local := Addr4 167772161 in
  let first := TSO.SetTSO TSO.env_no_table ∅ local (Addr4 134744072) true in
  TSO.cache first !! local = Some true /\
  TSO.SetTSO TSO.env_no_table (TSO.cache first) local (Addr4 134744072) true =
    {| TSO.cache := TSO.cache first; TSO.err := None; TSO.calls := [] |}.
Proof.
  intros local.
  apply (SetTSO_remembers_failures_too TSO.env_no_table TSO.env_no_table ∅ local
           (Addr4 134744072) (Addr4 134744072) true); reflexivity.
Defined.

(** X20 at work: the remote 10.0.0.2 is private. *)
Lemma SetTSO_private_remote_bypasses_cache_witness :
  let local := Addr4 167772161 in
  let remote := Addr4 167772162 in
  let warm : gmap Addr bool := {[ local := true ]} in
  TSO.cache (TSO.SetTSO TSO.env_loopback warm local remote true) = warm /\
  TSO.err (TSO.SetTSO TSO.env_loopback warm local remote true) =
    TSO.err (TSO.SetTSO TSO.env_loopback ∅ local remote true) /\
  TSO.calls (TSO.SetTSO TSO.env_loopback warm local remote true) =
    TSO.calls (TSO.SetTSO TSO.env_loopback ∅ local remote true) /\
  TSO.calls (TSO.SetTSO TSO.env_loopback warm local remote true) <> [].
Proof.
  intros local remote warm.
  apply (SetTSO_private_remote_bypasses_cache TSO.env_loopback warm ∅ local remote true).
  reflexivity.
Defined.

(** X21 at work: two quiet rounds, then the context is cancelled. *)
Lemma Read_sees_cancellation_only_at_a_timeout_witness :
  let q := {| FlowRead.SetReadDeadline := None;
              FlowRead.Recvfrom := FlowRead.RecvDeadline;
              FlowRead.ctxDone := false |} in
  let ctxErr := ErrorsNew "context canceled" in
  FlowRead.recv_loop ctxErr [q; q] = Blocks /\
  FlowRead.recv_loop ctxErr
    ([q; q] ++ {| FlowRead.SetReadDeadline := None;
                  FlowRead.Recvfrom := FlowRead.RecvDeadline;
                  FlowRead.ctxDone := true |} :: []) = Returns (inl ctxErr) /\
  FlowRead.recv_loop ctxErr
    ([q; q] ++ {| FlowRead.SetReadDeadline := None;
                  FlowRead.Recvfrom := FlowRead.RecvOk 40;
                  FlowRead.ctxDone := true |} :: []) = Returns (inr 40%nat).
Proof.
  intros q ctxErr.
  apply (Read_sees_cancellation_only_at_a_timeout ctxErr [q; q] [] 40).
  repeat constructor.
Defined.

(** X22 at work: port 9090 binds; without [usedPort] the guard is
    returned with its filter, with [usedPort] the bound listener is
    neither returned nor closed. *)
Lemma ListenLocal_closes_what_it_does_not_return_witness :
  let a := AddrPortFrom (Addr4 167772161) 9090 in
  let l := {| PortGuard.fd := 3; PortGuard.boundPort := 9090 |} in
  PortGuard.listener (PortGuard.ListenLocal PortGuard.os_8080_taken a false) = Some l /\
  PortGuard.effects (PortGuard.ListenLocal PortGuard.os_8080_taken a true) = [] /\
  PortGuard.err (PortGuard.ListenLocal PortGuard.os_8080_taken a true) <> None.
Proof.
  intros a l.
  destruct (ListenLocal_closes_what_it_does_not_return PortGuard.os_8080_taken a false l
              eq_refl) as [Hfree _].
  destruct (ListenLocal_closes_what_it_does_not_return PortGuard.os_8080_taken a true l
              eq_refl) as [_ Hused].
  destruct (Hfree eq_refl) as [(H & _)|(H & _)]; [|discriminate H].
  destruct (Hused eq_refl) as (_ & He & Heff).
  split; [exact H|]. split; [exact Heff|exact He].
Defined.

(** ** Accepting a SYN, and building the listener *)

(** The switch of [Accept] on a minimal IPv4 SYN, field bytes left
    open. *)
Lemma parse_syn_bytes (s0 s1 s2 s3 d0 d1 d2 d3 p0 p1 q0 q1 i0 i1 i2 i3 : byte)
      (tail : list byte) :
  EthRegistry.parse
    (map Zbyte [69; 0; 0; 40; 0; 0; 64; 0; 64; 6; 0; 0] ++
     [s0; s1; s2; s3] ++ [d0; d1; d2; d3] ++ [p0; p1] ++ [q0; q1] ++
     [i0; i1; i2; i3] ++ Header.be_bytes 4 0 ++
     map Zbyte [80; 2; 255; 255; 0; 0; 0; 0] ++ tail) 40 =
  EthRegistry.Syn
    (AddrPortFrom (Addr4 (IPStack.be_value [s0; s1; s2; s3]))
                  (IPStack.be_value [p0; p1]))
    (IPStack.be_value [i0; i1; i2; i3]).
Proof. vm_compute. reflexivity. Qed.

Lemma length_syn_packet src dst sport dport seq :
  length (Header.syn_packet src dst sport dport seq) = 40%nat.
Proof.
  unfold Header.syn_packet.
  rewrite !length_app, !length_be_bytes, !length_map. reflexivity.
Qed.

(** X23: [Accept] takes the remote address from bytes 12 to 15 of the IPv4
    header and the remote port and the sequence number from the TCP
    header behind it: read into a buffer of at least 40 bytes, whatever it
    held, the minimal SYN from [src]:[sport] with sequence number [seq] is
    parsed as the identity ([src]:[sport], [seq]). *)
Theorem Accept_reads_the_identity_of_a_syn (src dst sport dport seq : Z) (ip : list byte) :
  0 <= src < 2 ^ 32 -> 0 <= sport < 2 ^ 16 -> 0 <= seq < 2 ^ 32 ->
  (40 <= length ip)%nat ->
  EthRegistry.parse
    (fst (EthRegistry.fill ip (Header.syn_packet src dst sport dport seq)))
    (snd (EthRegistry.fill ip (Header.syn_packet src dst sport dport seq))) =
  EthRegistry.Syn (AddrPortFrom (Addr4 src) sport) seq.
Proof.
  intros Hsrc Hsport Hseq Hip.
  unfold EthRegistry.fill. cbn [fst snd].
  rewrite length_syn_packet, Nat.min_l by exact Hip.
  rewrite take_ge by (rewrite length_syn_packet; lia).
  pose proof (parse_syn_bytes
    (Zbyte (src / 256 / 256 / 256)) (Zbyte (src / 256 / 256)) (Zbyte (src / 256)) (Zbyte src)
    (Zbyte (dst / 256 / 256 / 256)) (Zbyte (dst / 256 / 256)) (Zbyte (dst / 256)) (Zbyte dst)
    (Zbyte (sport / 256)) (Zbyte sport) (Zbyte (dport / 256)) (Zbyte dport)
    (Zbyte (seq / 256 / 256 / 256)) (Zbyte (seq / 256 / 256)) (Zbyte (seq / 256)) (Zbyte seq)
    (drop 40 ip)) as H.
  change [Zbyte (src / 256 / 256 / 256); Zbyte (src / 256 / 256); Zbyte (src / 256); Zbyte src]
    with (Header.be_bytes 4 src) in H.
  change [Zbyte (dst / 256 / 256 / 256); Zbyte (dst / 256 / 256); Zbyte (dst / 256); Zbyte dst]
    with (Header.be_bytes 4 dst) in H.
  change [Zbyte (seq / 256 / 256 / 256); Zbyte (seq / 256 / 256); Zbyte (seq / 256); Zbyte seq]
    with (Header.be_bytes 4 seq) in H.
  change [Zbyte (sport / 256); Zbyte sport] with (Header.be_bytes 2 sport) in H.
  change [Zbyte (dport / 256); Zbyte dport] with (Header.be_bytes 2 dport) in H.
  rewrite !be_value_be_bytes_small in H
    by (first [change (256 ^ Z.of_nat 4) with (2 ^ 32) | change (256 ^ Z.of_nat 2) with (2 ^ 16)];
        assumption).
  unfold Header.syn_packet. rewrite <- !app_assoc. exact H.
Qed.

(** X24: a SYN the live set does not record (no entry for the remote, or
    another sequence number), read when the prune pass returns and [init]
    succeeds, is accepted: [listenerEth.Accept] stores the sequence number
    under the remote, touches nothing else of the listener, leaves the
    later reads unread and returns a flow with the listener's address and
    the identity of the SYN. *)
Theorem Accept_records_and_returns_a_new_identity
        (sizes : bool -> nat * nat) (env : Flow.Env) (ipcfg : Z)
        (l : EthRegistry.listenerEth) (ip pkt : list byte) (now : Z)
        (rest : list EthRegistry.read) (raddr : AddrPort) (isn : Z) :
  (fst (sizes (Is4 (AddrOf (EthRegistry.addr l)))) <= snd (EthRegistry.fill ip pkt))%nat ->
  snd (EthRegistry.purgeDeleted now l) = false ->
  EthRegistry.parse (fst (EthRegistry.fill ip pkt)) (snd (EthRegistry.fill ip pkt))
    = EthRegistry.Syn raddr isn ->
  EthRegistry.conns l !! raddr <> Some isn ->
  Flow.result (Flow.ConnEth_init env ipcfg
                 (Flow.newConnect (EthRegistry.addr l) raddr isn true))
    = Returns None ->
  exists c,
    EthRegistry.accept_loop sizes env ipcfg l ip (EthRegistry.ReadPkt pkt now :: rest) =
      (EthRegistry.set_conns (<[raddr := isn]> (EthRegistry.conns l)) l,
       Returns {| EthRegistry.flow := Some c; EthRegistry.err := None |}, rest) /\
    Flow.laddr c = EthRegistry.addr l /\ Flow.raddr c = raddr /\ Flow.isn c = isn.
Proof.
  intros Hn Hpurge Hp Hfresh Hinit. cbn [EthRegistry.accept_loop].
  destruct (EthRegistry.fill ip pkt) as [ip' n]. cbn [fst snd] in *.
  apply Nat.ltb_ge in Hn. rewrite Hn.
  pose proof (purgeDeleted_returns now l Hpurge) as Hsame.
  destruct (EthRegistry.purgeDeleted now l) as [l1 b]. cbn [fst snd] in *.
  subst l1 b. rewrite Hp.
  assert (Hf : match EthRegistry.conns l !! raddr with
               | Some old => negb (old =? isn) | None => true end = true).
  { destruct (EthRegistry.conns l !! raddr) as [old|]; [|reflexivity].
    destruct (Z.eqb_spec old isn) as [->|]; [congruence|reflexivity]. }
  rewrite Hf. cbv zeta.
  change (EthRegistry.addr (EthRegistry.set_conns _ l)) with (EthRegistry.addr l).
  rewrite Hinit.
  set (c0 := Flow.newConnect (EthRegistry.addr l) raddr isn true) in *.
  pose proof (init_body_identity env ipcfg c0 []) as Hid.
  pose proof (init_body_makes_no_callback env ipcfg c0) as Hlog.
  cbv zeta in Hid.
  unfold Flow.ConnEth_init in *.
  destruct (Flow.init_body env ipcfg (c0, [])) as [[c' log] [u|e'|]];
    cbn [Flow.result Flow.conn Flow.calls fst snd] in *; try discriminate.
  destruct Hid as (Hl & Hr & Hi & Hc).
  eexists. split; [|split; [exact Hl|split; [exact Hr|exact Hi]]].
  rewrite (notify_without_callback _ _ _ Hlog). reflexivity.
Qed.

(** X24 at work: the first SYN of a fresh listener. *)
Lemma Accept_records_and_returns_a_new_identity_witness :
  exists c,
    EthRegistry.accept_loop Header.syn_sizes Flow.env_ok 0
        (EthRegistry.ListenEth Scenario.local) (replicate 120 Byte.x00)
        [EthRegistry.ReadPkt (Scenario.syn 1) Scenario.second] =
      (EthRegistry.set_conns (<[Scenario.peer := 1]> ∅)
         (EthRegistry.ListenEth Scenario.local),
       Returns {| EthRegistry.flow := Some c; EthRegistry.err := None |}, []) /\
    Flow.laddr c = Scenario.local /\ Flow.raddr c = Scenario.peer /\ Flow.isn c = 1.
Proof.
  apply (Accept_records_and_returns_a_new_identity Header.syn_sizes Flow.env_ok 0
           (EthRegistry.ListenEth Scenario.local) (replicate 120 Byte.x00)
           (Scenario.syn 1) Scenario.second [] Scenario.peer 1).
  - apply Nat.leb_le. vm_compute. reflexivity.
  - reflexivity.
  - vm_compute. reflexivity.
  - cbn [EthRegistry.conns EthRegistry.ListenEth]. rewrite lookup_empty. discriminate.
  - vm_compute. reflexivity.
Defined.

(** X23 at work on a buffer full of 0xff. *)
Lemma Accept_reads_the_identity_of_a_syn_witness :
  EthRegistry.parse
    (fst (EthRegistry.fill (replicate 120 Byte.xff) (Scenario.syn 305419896)))
    (snd (EthRegistry.fill (replicate 120 Byte.xff) (Scenario.syn 305419896))) =
  EthRegistry.Syn Scenario.peer 305419896.
Proof.
  apply (Accept_reads_the_identity_of_a_syn 167772162 167772161 4000 80 305419896
           (replicate 120 Byte.xff)); try lia.
  apply Nat.leb_le. reflexivity.
Defined.

(** [ListenLocal] never returns a listener with an error. *)
Lemma ListenLocal_listener_or_error os laddr usedPort e :
  PortGuard.err (PortGuard.ListenLocal os laddr usedPort) = Some e ->
  PortGuard.listener (PortGuard.ListenLocal os laddr usedPort) = None.
Proof.
  unfold PortGuard.ListenLocal.
  destruct (PortGuard.ListenTCP os laddr) as [e0|l].
  - destruct (usedPort && errors_Is e0 EADDRINUSE); reflexivity.
  - destruct usedPort; [reflexivity|].
    destruct (PortGuard.SyscallConn os l); [reflexivity|].
    destruct (PortGuard.Control os l); [reflexivity|].
    destruct (PortGuard.Assemble os); [reflexivity|].
    destruct (PortGuard.SetsockoptSockFprog os l); [reflexivity|discriminate].
Qed.

(** X25: [ListenEth] returns a listener or an error, never both and never
    neither.  With a listener no socket has been closed, its address is
    the one [ListenLocal] reported, and the last call attached
    [FilterDstPortAndSynFlag] for the port of that address to the raw
    socket; with an error the port guard, if one was returned, and the raw
    socket, if one was opened, have been closed. *)
Theorem ListenEth_all_or_nothing (env : Setup.Env) (laddr : AddrPort) (usedPort : bool) :
  let g := PortGuard.ListenLocal (Setup.guard env) laddr usedPort in
  let r := Setup.ListenEth env laddr usedPort in
  match Setup.listener r with
  | Some (h, a) =>
    Setup.err r = None /\ a = PortGuard.address g /\
    Setup.tcp h = PortGuard.listener g /\
    filter (fun c => Setup.is_close c) (Setup.calls r) = [] /\
    exists fd, Setup.raw h = Some fd /\
      last (Setup.calls r) =
        Some (Setup.CallSetRawBPF fd (Bpf.FilterDstPortAndSynFlag (Port a)))
  | None =>
    Setup.err r <> None /\
    (forall l, PortGuard.listener g = Some l -> In (Setup.CallCloseGuard l) (Setup.calls r)) /\
    (forall fd, In (Setup.CallListenIP (AddrOf (PortGuard.address g))) (Setup.calls r) ->
                Setup.ListenIP env (AddrOf (PortGuard.address g)) = inr fd ->
                In (Setup.CallCloseRaw fd) (Setup.calls r))
  end.
Proof.
  cbv zeta. unfold Setup.ListenEth, Setup.listen, Setup.fail_eth, Setup.close_handles.
  pose proof (ListenLocal_listener_or_error (Setup.guard env) laddr usedPort) as Hg.
  destruct (PortGuard.err (PortGuard.ListenLocal (Setup.guard env) laddr usedPort))
    as [e|].
  - rewrite (Hg e eq_refl). cbn. repeat split; try discriminate.
    intros fd [H|[]]. discriminate H.
  - clear Hg.
    set (g := PortGuard.ListenLocal (Setup.guard env) laddr usedPort).
    destruct (PortGuard.listener g) as [l|];
      destruct (Setup.ListenIP env (AddrOf (PortGuard.address g))) as [e|fd] eqn:Hip;
      cbn; try (destruct (Setup.RawSyscallConn env fd); cbn);
      try (destruct (Setup.SetRawBPF env fd _); cbn);
      repeat split; try discriminate; eauto;
      try (intros l' [= <-]); try (intros fd' _ [= <-]); try (intros fd' _ Hd; discriminate Hd);
      cbn; tauto.
Qed.

(** X26: when a step of the setup fails and closing the port guard fails
    too, [Listen] returns the error of the close in place of the error of
    the step, where [ListenEth] returns the error of the step. *)
Theorem Listen_returns_the_error_of_a_failed_close
        (env : Setup.Env) (laddr : AddrPort) (tso : bool)
        (l : PortGuard.TCPListener) (e e' : error) :
  let g := PortGuard.ListenLocal (Setup.guard env) laddr false in
  PortGuard.listener g = Some l ->
  Setup.SetTSOByAddr env (AddrOf (PortGuard.address g)) tso = None ->
  Setup.ListenIP env (AddrOf (PortGuard.address g)) = inl e ->
  Setup.CloseGuard env l = Some e' ->
  Setup.err (Setup.ListenEth env laddr false) = Some e /\
  Setup.err (Setup.Listen env laddr false tso) = Some e' /\
  Setup.listener (Setup.Listen env laddr false tso) = None /\
  In (Setup.CallCloseGuard l) (Setup.calls (Setup.Listen env laddr false tso)).
Proof.
  cbv zeta. intros Hl Htso Hip Hclose.
  assert (Hg : PortGuard.err (PortGuard.ListenLocal (Setup.guard env) laddr false) = None).
  { destruct (PortGuard.err _) as [x|] eqn:E; [|reflexivity].
    apply ListenLocal_listener_or_error in E. congruence. }
  unfold Setup.ListenEth, Setup.Listen, Setup.listen, Setup.fail_eth, Setup.fail_tcp,
    Setup.close_handles.
  rewrite Hg, Htso, Hip, Hl. cbn. rewrite Hclose. cbn.
  repeat split. right. right. right. left. reflexivity.
Qed.

(** X26 at work: raw sockets are refused (EPERM) and the close of the
    guard fails (EBADF). *)
Lemma Listen_returns_the_error_of_a_failed_close_witness :
  let a := AddrPortFrom (Addr4 167772161) 9090 in
  let l := {| PortGuard.fd := 3; PortGuard.boundPort := 9090 |} in
  Setup.err (Setup.ListenEth Setup.env_no_raw a false) = Some (Errno 1) /\
  Setup.err (Setup.Listen Setup.env_no_raw a false true) = Some (Errno 9) /\
  Setup.listener (Setup.Listen Setup.env_no_raw a false true) = None /\
  In (Setup.CallCloseGuard l) (Setup.calls (Setup.Listen Setup.env_no_raw a false true)).
Proof.
  intros a l.
  apply (Listen_returns_the_error_of_a_failed_close Setup.env_no_raw a true l
           (Errno 1) (Errno 9)); reflexivity.
Defined.

(** ** Closing twice *)


